(** * NimbusTodo: task model, collection manager, derived views, persisted store

    A shallow embedding of the TypeScript sources
      - [src/types/task.ts]           (the Task and TaskInput records),
      - [src/hooks/useTaskList.ts]    (the collection manager),
      - [src/utils/task.ts]           (sorting, overdue test, grouping),
      - [src/hooks/useLocalStorage.ts] (the persisted store),
    followed by the properties of the specification that concern them.

    Conventions of the embedding.
    - A JavaScript [Date] is its time value: an integer number of
      milliseconds since the epoch, or NaN for an invalid date.
    - An optional property that may also hold [null] ([dueDate?: Date | null])
      has three states, kept apart as JavaScript keeps them: the property is
      absent ([Undefined]), it is [Null], or it holds a value.  The
      specification has only one notion of "no value" and calls it null;
      [is_null] is that notion.
    - React state ([useState]) is the value passed from one call to the
      next; [setTasks (prev => e)] is the function [fun prev => e].
    - [new Date()] evaluated inside an operation performed at instant [now]
      reads [now]. *)

From Stdlib Require Import ZArith Lia Ascii DecimalString DecimalZ.
From stdpp Require Import base decidable option list strings gmap fin_maps pretty sorting.

Local Open Scope Z_scope.
Local Open Scope string_scope.
Local Open Scope list_scope.

(** ** Dates and nullable properties *)

Inductive Date : Type :=
  | Instant (ms : Z)
  | InvalidDate.

Global Instance Date_eq_dec : EqDecision Date.
Proof. solve_decision. Defined.

(** [new Date()] at instant [now]. *)
Definition newDate (now : Z) : Date := Instant now.

(** [new Date(d)] for a Date [d]: a copy with the same time value. *)
Definition copyDate (d : Date) : Date := d.

(** [a < b] on Date objects: both are converted to their time values, and
    every comparison with NaN is false. *)
Definition date_ltb (a b : Date) : bool :=
  match a, b with
  | Instant x, Instant y => bool_decide (x < y)
  | _, _ => false
  end.

(** [a >= b] on Date objects. *)
Definition date_geb (a b : Date) : bool :=
  match a, b with
  | Instant x, Instant y => bool_decide (y <= x)
  | _, _ => false
  end.

(** [a.getTime() === b.getTime()]: NaN is equal to nothing. *)
Definition sameTime (a b : Date) : bool :=
  match a, b with
  | Instant x, Instant y => bool_decide (x = y)
  | _, _ => false
  end.

Definition msPerDay : Z := 86400000.

(** [d.setHours(0, 0, 0, 0)]: the start of [d]'s local calendar day.  Local
    time is UTC plus a fixed offset [tz] (in milliseconds); an invalid date
    stays invalid. *)
Definition setHours0 (tz : Z) (d : Date) : Date :=
  match d with
  | Instant t => Instant (t - (t + tz) mod msPerDay)
  | InvalidDate => InvalidDate
  end.

(** *** Calendar fields

    [getFullYear], [getMonth] and [getDate] read the local calendar day of
    a time value in the proleptic Gregorian calendar, as ECMAScript defines
    it.  The day number counts days from 1 January 1970; the month is
    zero-based.  On an invalid date every field is NaN ([None]). *)

Definition localDay (tz t : Z) : Z := (t + tz) / msPerDay.

(** Year, zero-based month and day of the month of a day number. *)
Definition civil_from_days (z : Z) : Z * Z * Z :=
  let z' := z + 719468 in
  let era := z' / 146097 in
  let doe := z' - era * 146097 in
  let yoe := (doe - doe / 1460 + doe / 36524 - doe / 146096) / 365 in
  let doy := doe - (365 * yoe + yoe / 4 - yoe / 100) in
  let mp := (5 * doy + 2) / 153 in
  let d := doy - (153 * mp + 2) / 5 + 1 in
  let m := if bool_decide (mp < 10) then mp + 3 else mp - 9 in
  (yoe + era * 400 + (if bool_decide (m <= 2) then 1 else 0), m - 1, d).

(** The day number of a year, zero-based month and day of the month. *)
Definition days_from_civil (c : Z * Z * Z) : Z :=
  let '(year, month, d) := c in
  let m := month + 1 in
  let y := year - (if bool_decide (m <= 2) then 1 else 0) in
  let era := y / 400 in
  let yoe := y - era * 400 in
  let mp := if bool_decide (2 < m) then m - 3 else m + 9 in
  let doy := (153 * mp + 2) / 5 + d - 1 in
  let doe := yoe * 365 + yoe / 4 - yoe / 100 + doy in
  era * 146097 + doe - 719468.

Global Arguments civil_from_days : simpl never.
Global Arguments days_from_civil : simpl never.

Definition getFullYear (tz : Z) (d : Date) : option Z :=
  match d with
  | Instant t => Some (civil_from_days (localDay tz t)).1.1
  | InvalidDate => None
  end.

Definition getMonth (tz : Z) (d : Date) : option Z :=
  match d with
  | Instant t => Some (civil_from_days (localDay tz t)).1.2
  | InvalidDate => None
  end.

Definition getDate (tz : Z) (d : Date) : option Z :=
  match d with
  | Instant t => Some (civil_from_days (localDay tz t)).2
  | InvalidDate => None
  end.

(** [x === y] on numbers: NaN is equal to nothing. *)
Definition num_eq (x y : option Z) : bool :=
  match x, y with
  | Some a, Some b => bool_decide (a = b)
  | _, _ => false
  end.

(** [a.getDate() === b.getDate() && a.getMonth() === b.getMonth()
     && a.getFullYear() === b.getFullYear()] *)
Definition sameYMD (tz : Z) (a b : Date) : bool :=
  num_eq (getDate tz a) (getDate tz b)
  && num_eq (getMonth tz a) (getMonth tz b)
  && num_eq (getFullYear tz a) (getFullYear tz b).

(** [d.setDate(d.getDate() + 1)]: the same local time on the next day. *)
Definition nextDay (d : Date) : Date :=
  match d with
  | Instant t => Instant (t + msPerDay)
  | InvalidDate => InvalidDate
  end.

(** *** Numbers

    The numbers a sort comparator returns here are differences of time
    values and [Infinity].  Time values are integers below 2^53, so the
    sign of a difference is exact. *)

Inductive Number : Type :=
  | Finite (z : Z)
  | PosInfinity
  | NegInfinity
  | NaN.

Definition Number_sub (a b : Number) : Number :=
  match a, b with
  | NaN, _ | _, NaN => NaN
  | Finite x, Finite y => Finite (x - y)
  | Finite _, PosInfinity => NegInfinity
  | Finite _, NegInfinity => PosInfinity
  | PosInfinity, PosInfinity => NaN
  | PosInfinity, _ => PosInfinity
  | NegInfinity, NegInfinity => NaN
  | NegInfinity, _ => NegInfinity
  end.

(** [d.getTime()] *)
Definition getTime (d : Date) : Number :=
  match d with
  | Instant t => Finite t
  | InvalidDate => NaN
  end.

(** What [Array.prototype.sort] makes of a comparator result: its sign,
    with NaN taken as zero. *)
Definition sortOrder (v : Number) : Z :=
  match v with
  | Finite z => z
  | PosInfinity => 1
  | NegInfinity => -1
  | NaN => 0
  end.

Inductive Nullable (A : Type) : Type :=
  | Undefined
  | Null
  | Val (a : A).
Arguments Undefined {A}.
Arguments Null {A}.
Arguments Val {A} a.

Global Instance Nullable_eq_dec `{EqDecision A} : EqDecision (Nullable A).
Proof. solve_decision. Defined.

(** Truthiness of a nullable object-valued property: [undefined] and [null]
    are falsy, every object (also an invalid Date) is truthy. *)
Definition truthy {A} (x : Nullable A) : bool :=
  match x with Val _ => true | _ => false end.


(** ** src/types/task.ts *)

Inductive TaskPriority : Type := low | medium | high | urgent.
Inductive TaskStatus : Type := pending | completed | archived.

Global Instance TaskPriority_eq_dec : EqDecision TaskPriority.
Proof. solve_decision. Defined.
Global Instance TaskStatus_eq_dec : EqDecision TaskStatus.
Proof. solve_decision. Defined.

Record Task : Type := mkTask {
  id : string;
  title : string;
  description : option string;
  dueDate : Nullable Date;
  priority : TaskPriority;
  status : TaskStatus;
  createdAt : Date;
  updatedAt : Date;
  completedAt : Nullable Date;
  tags : option (list string);
  listId : option string;
}.

Global Instance Task_eq_dec : EqDecision Task.
Proof. solve_decision. Defined.

Record TaskInput : Type := mkTaskInput {
  input_title : string;
  input_description : option string;
  input_dueDate : Nullable Date;
  input_priority : TaskPriority;
  input_status : option TaskStatus;
  input_tags : option (list string);
  input_listId : option string;
}.

(** [Partial<Task>]: every property of Task may be present or not.  [None]
    is "the payload has no such property"; [Some v] is "the payload carries
    the property with value [v]". *)
Record PartialTask : Type := mkPartialTask {
  upd_id : option string;
  upd_title : option string;
  upd_description : option (option string);
  upd_dueDate : option (Nullable Date);
  upd_priority : option TaskPriority;
  upd_status : option TaskStatus;
  upd_createdAt : option Date;
  upd_updatedAt : option Date;
  upd_completedAt : option (Nullable Date);
  upd_tags : option (option (list string));
  upd_listId : option (option string);
}.

(** The payload with no property at all, [{}]. *)
Definition noUpdates : PartialTask :=
  mkPartialTask None None None None None None None None None None None.

(** One property of the object spread [{...task, ...updates}]: the value of
    [updates] when it has the property, the value of [task] otherwise. *)
Definition spread {A} (old : A) (upd : option A) : A :=
  match upd with Some v => v | None => old end.

(** ** src/hooks/useTaskList.ts *)

Module useTaskList.

(** [`task-${Date.now()}-${Math.random().toString(36).substr(2, 9)}`];
    [rnd] is the text that the random draw contributes. *)
Definition freshId (now : Z) (rnd : string) : string :=
  "task-" +:+ pretty now +:+ "-" +:+ rnd.

(** The task object built by [addTask].  It has no [completedAt] property. *)
Definition newTask (now : Z) (rnd : string) (input : TaskInput) : Task :=
  {| id := freshId now rnd;
     title := input_title input;
     description := input_description input;
     dueDate := input_dueDate input;
     priority := input_priority input;
     status := match input_status input with Some s => s | None => pending end;
     tags := input_tags input;
     listId := input_listId input;
     createdAt := newDate now;
     updatedAt := newDate now;
     completedAt := Undefined |}.

(** [addTask]: the returned task and the next collection. *)
Definition addTask (now : Z) (rnd : string) (input : TaskInput)
    (prev : list Task) : Task * list Task :=
  let t := newTask now rnd input in
  (t, t :: prev).

(** [{ ...task, ...updates, updatedAt: new Date() }] *)
Definition mergeTask (now : Z) (updates : PartialTask) (task : Task) : Task :=
  {| id := spread (id task) (upd_id updates);
     title := spread (title task) (upd_title updates);
     description := spread (description task) (upd_description updates);
     dueDate := spread (dueDate task) (upd_dueDate updates);
     priority := spread (priority task) (upd_priority updates);
     status := spread (status task) (upd_status updates);
     createdAt := spread (createdAt task) (upd_createdAt updates);
     updatedAt := newDate now;
     completedAt := spread (completedAt task) (upd_completedAt updates);
     tags := spread (tags task) (upd_tags updates);
     listId := spread (listId task) (upd_listId updates) |}.

Definition updateTask (now : Z) (id0 : string) (updates : PartialTask)
    (prev : list Task) : list Task :=
  map (fun task =>
         if bool_decide (id task = id0) then mergeTask now updates task
         else task) prev.

Definition deleteTask (id0 : string) (prev : list Task) : list Task :=
  List.filter (fun task => negb (bool_decide (id task = id0))) prev.

(** [{ ...task, status, completedAt: status === 'completed' ? new Date() : null,
       updatedAt: new Date() }] *)
Definition withStatus (now : Z) (st : TaskStatus) (task : Task) : Task :=
  {| id := id task;
     title := title task;
     description := description task;
     dueDate := dueDate task;
     priority := priority task;
     status := st;
     createdAt := createdAt task;
     updatedAt := newDate now;
     completedAt := if bool_decide (st = completed) then Val (newDate now)
                    else Null;
     tags := tags task;
     listId := listId task |}.

Definition updateTaskStatus (now : Z) (id0 : string) (st : TaskStatus)
    (prev : list Task) : list Task :=
  map (fun task =>
         if bool_decide (id task = id0) then withStatus now st task
         else task) prev.

(** The argument type [TaskStatus | 'all']. *)
Inductive StatusOrAll : Type :=
  | all
  | just (s : TaskStatus).

Definition getTasksByStatus (tasks : list Task) (st : StatusOrAll) : list Task :=
  match st with
  | all => List.filter (fun t => negb (bool_decide (status t = archived))) tasks
  | just s => List.filter (fun t => bool_decide (status t = s)) tasks
  end.

Definition getTasksByPriority (tasks : list Task) (p : TaskPriority) : list Task :=
  List.filter (fun t => bool_decide (priority t = p)) tasks.

(** The callback of [getOverdueTasks]:
    [t.dueDate && new Date(t.dueDate) < now && t.status !== 'completed'
       && t.status !== 'archived'] with [now = new Date()]. *)
Definition overdueNow (now : Z) (t : Task) : bool :=
  match dueDate t with
  | Val d =>
      date_ltb (copyDate d) (newDate now)
      && negb (bool_decide (status t = completed))
      && negb (bool_decide (status t = archived))
  | _ => false
  end.

Definition getOverdueTasks (now : Z) (tasks : list Task) : list Task :=
  List.filter (overdueNow now) tasks.

(** The callback of [getDueToday]: the due date and [today = new Date()],
    both moved to the start of their day, have the same time value, and the
    task is not completed. *)
Definition dueTodayNow (tz now : Z) (t : Task) : bool :=
  match dueDate t with
  | Val d =>
      sameTime (setHours0 tz (copyDate d)) (setHours0 tz (newDate now))
      && negb (bool_decide (status t = completed))
  | _ => false
  end.

Definition getDueToday (tz now : Z) (tasks : list Task) : list Task :=
  List.filter (dueTodayNow tz now) tasks.

(** [{ ...task, status: 'archived' }] *)
Definition archive (task : Task) : Task :=
  {| id := id task;
     title := title task;
     description := description task;
     dueDate := dueDate task;
     priority := priority task;
     status := archived;
     createdAt := createdAt task;
     updatedAt := updatedAt task;
     completedAt := completedAt task;
     tags := tags task;
     listId := listId task |}.

Definition clearCompleted (prev : list Task) : list Task :=
  map (fun task =>
         if bool_decide (status task = completed) then archive task
         else task) prev.

End useTaskList.

(** ** Arrays as mutable objects

    [Array.prototype.sort] sorts the array it is called on, in place, and
    returns that same array; [[...a]] allocates a new array.  Whether
    [sortByPriority] changes its argument is a question about this store,
    so arrays live in a heap and are passed by reference. *)

Module Arrays.

Abbreviation Heap := (gmap nat (list Task)).

(** [[...a]]: a new array holding the elements of the array at [r]. *)
Definition spreadCopy (r : nat) (h : Heap) : option (nat * Heap) :=
  match h !! r with
  | Some l => let r' := fresh (dom h) in Some (r', <[r' := l]> h)
  | None => None
  end.

(** Insertion of [x], which precedes every element of [l] in the original
    array, into the sorted [l]: [x] moves right only past elements that the
    comparator puts strictly before it. *)
Fixpoint sort_insert (cmp : Task -> Task -> Z) (x : Task) (l : list Task)
    : list Task :=
  match l with
  | [] => [x]
  | y :: l' =>
      if bool_decide (cmp x y <= 0) then x :: y :: l'
      else y :: sort_insert cmp x l'
  end.

(** The order [Array.prototype.sort] produces.  ECMAScript (since ES2019)
    requires the sort to be stable; for a comparator that is a consistent
    ordering, all stable sorts return the same array, here computed by
    insertion. *)
Definition stable_sort (cmp : Task -> Task -> Z) (l : list Task) : list Task :=
  foldr (sort_insert cmp) [] l.

(** [a.sort(cmp)]: replaces the contents of the array at [r], returns [r]. *)
Definition Array_sort (cmp : Task -> Task -> Z) (r : nat) (h : Heap)
    : option (nat * Heap) :=
  match h !! r with
  | Some l => Some (r, <[r := stable_sort cmp l]> h)
  | None => None
  end.

End Arrays.

(** ** src/utils/task.ts *)

Module utils.

Definition getPriorityValue (p : TaskPriority) : Z :=
  match p with
  | low => 1
  | medium => 2
  | high => 3
  | urgent => 4
  end.

(** [(a, b) => getPriorityValue(b.priority) - getPriorityValue(a.priority)] *)
Definition byPriorityDesc (a b : Task) : Z :=
  getPriorityValue (priority b) - getPriorityValue (priority a).

(** [[...tasks].sort(cmp)] on the heap: the reference of the result and the
    heap afterwards. *)
Definition sortByPriority (tasks : nat) (h : Arrays.Heap)
    : option (nat * Arrays.Heap) :=
  match Arrays.spreadCopy tasks h with
  | Some (copy, h') => Arrays.Array_sort byPriorityDesc copy h'
  | None => None
  end.

(** The array [sortByPriority] returns, as a value. *)
Definition sortByPriority_list (tasks : list Task) : list Task :=
  Arrays.stable_sort byPriorityDesc tasks.

Definition isTaskOverdue (tz now : Z) (task : Task) : bool :=
  match dueDate task with
  | Val d =>
      if bool_decide (status task = completed)
         || bool_decide (status task = archived)
      then false
      else
        let now' := setHours0 tz (newDate now) in
        let due := setHours0 tz (copyDate d) in
        date_ltb due now'
  | _ => false
  end.

(** [keyof Task] *)
Inductive TaskKey : Type :=
  | k_id | k_title | k_description | k_dueDate | k_priority | k_status
  | k_createdAt | k_updatedAt | k_completedAt | k_tags | k_listId.

Definition String_priority (p : TaskPriority) : string :=
  match p with
  | low => "low" | medium => "medium" | high => "high" | urgent => "urgent"
  end.

Definition String_status (s : TaskStatus) : string :=
  match s with
  | pending => "pending" | completed => "completed" | archived => "archived"
  end.

(** [String(x)] for an optional string. *)
Definition String_optional (x : option string) : string :=
  match x with Some s => s | None => "undefined" end.

(** [String(task[groupBy])].  [Date_toString] is the platform's rendering
    of a Date in local time; an array is rendered as its elements joined by
    commas. *)
Definition String_field (Date_toString : Date -> string) (k : TaskKey)
    (task : Task) : string :=
  let String_nullable (x : Nullable Date) :=
    match x with
    | Undefined => "undefined"
    | Null => "null"
    | Val d => Date_toString d
    end in
  match k with
  | k_id => id task
  | k_title => title task
  | k_description => String_optional (description task)
  | k_dueDate => String_nullable (dueDate task)
  | k_priority => String_priority (priority task)
  | k_status => String_status (status task)
  | k_createdAt => Date_toString (createdAt task)
  | k_updatedAt => Date_toString (updatedAt task)
  | k_completedAt => String_nullable (completedAt task)
  | k_tags =>
      match tags task with
      | Some l => String.concat "," l
      | None => "undefined"
      end
  | k_listId => String_optional (listId task)
  end.

(** Result of running a statement: it completes, or it throws. *)
Inductive Completion (A : Type) : Type :=
  | Normal (a : A)
  | Throw (e : string).
Arguments Normal {A} a.
Arguments Throw {A} e.

(** The property names every object literal inherits from
    [Object.prototype].  For such a name [grouped[key]] is never
    [undefined], even when [grouped] has no own property of that name. *)
Definition ObjectPrototype_keys : list string :=
  [ "constructor"; "hasOwnProperty"; "isPrototypeOf";
    "propertyIsEnumerable"; "toLocaleString"; "toString"; "valueOf";
    "__proto__"; "__defineGetter__"; "__defineSetter__";
    "__lookupGetter__"; "__lookupSetter__" ].

Definition inherited (k : string) : bool :=
  bool_decide (k ∈ ObjectPrototype_keys).

(** One round of the [forEach] body.  [grouped] holds the own properties of
    the object.  When [key] is an own property its array receives the task.
    When it is not, [grouped[key]] is [undefined] and a new array is stored,
    unless [key] names an inherited member: that value is truthy and has no
    [push], so the call throws. *)
Definition groupStep (key : Task -> string) (grouped : gmap string (list Task))
    (task : Task) : Completion (gmap string (list Task)) :=
  let k := key task in
  match grouped !! k with
  | Some arr => Normal (<[k := arr ++ [task]]> grouped)
  | None =>
      if inherited k then Throw "TypeError: grouped[key].push is not a function"
      else Normal (<[k := [task]]> grouped)
  end.

Fixpoint forEach_group (key : Task -> string) (tasks : list Task)
    (grouped : gmap string (list Task)) : Completion (gmap string (list Task)) :=
  match tasks with
  | [] => Normal grouped
  | task :: rest =>
      match groupStep key grouped task with
      | Normal grouped' => forEach_group key rest grouped'
      | Throw e => Throw e
      end
  end.

Definition groupTasks_by (key : Task -> string) (tasks : list Task)
    : Completion (gmap string (list Task)) :=
  forEach_group key tasks ∅.

Definition groupTasks (Date_toString : Date -> string) (tasks : list Task)
    (groupBy : TaskKey) : Completion (gmap string (list Task)) :=
  groupTasks_by (String_field Date_toString groupBy) tasks.

(** [a.dueDate ? new Date(a.dueDate).getTime() : Infinity] *)
Definition dueTime (a : Task) : Number :=
  match dueDate a with
  | Val d => getTime (copyDate d)
  | _ => PosInfinity
  end.

(** The comparator of [sortByDueDate], [aDate - bDate], as the sort reads
    it. *)
Definition byDueDateAsc (a b : Task) : Z :=
  sortOrder (Number_sub (dueTime a) (dueTime b)).

Definition sortByDueDate (tasks : nat) (h : Arrays.Heap)
    : option (nat * Arrays.Heap) :=
  match Arrays.spreadCopy tasks h with
  | Some (copy, h') => Arrays.Array_sort byDueDateAsc copy h'
  | None => None
  end.

(** The array [sortByDueDate] returns, as a value. *)
Definition sortByDueDate_list (tasks : list Task) : list Task :=
  Arrays.stable_sort byDueDateAsc tasks.

Definition isTaskDueToday (tz now : Z) (task : Task) : bool :=
  match dueDate task with
  | Val d =>
      let today := newDate now in
      let dueDate := copyDate d in
      sameYMD tz dueDate today
  | _ => false
  end.

Definition isTaskDueTomorrow (tz now : Z) (task : Task) : bool :=
  match dueDate task with
  | Val d =>
      let tomorrow := nextDay (newDate now) in
      let dueDate := copyDate d in
      sameYMD tz dueDate tomorrow
  | _ => false
  end.

Definition getUrgentTasks (tasks : list Task) : list Task :=
  List.filter
    (fun task =>
       (bool_decide (priority task = urgent) || bool_decide (priority task = high))
       && negb (bool_decide (status task = completed))
       && negb (bool_decide (status task = archived)))
    tasks.

Module TaskStats.

Record byPriority_t : Type := mkByPriority {
  low : Z;
  medium : Z;
  high : Z;
  urgent : Z;
}.

Record t : Type := mk {
  total : Z;
  pending : Z;
  completed : Z;
  archived : Z;
  overdue : Z;
  dueToday : Z;
  byPriority : byPriority_t;
}.

End TaskStats.

(** [stats[task.status]++] *)
Definition countStatus (s : TaskStatus) (stats : TaskStats.t) : TaskStats.t :=
  let '(TaskStats.mk n p c a o d b) := stats in
  match s with
  | pending => TaskStats.mk n (p + 1) c a o d b
  | completed => TaskStats.mk n p (c + 1) a o d b
  | archived => TaskStats.mk n p c (a + 1) o d b
  end.

(** [stats.byPriority[task.priority]++] *)
Definition countPriority (p : TaskPriority) (stats : TaskStats.t) : TaskStats.t :=
  let '(TaskStats.mk n pe c a o d (TaskStats.mkByPriority l m h u)) := stats in
  TaskStats.mk n pe c a o d
    match p with
    | low => TaskStats.mkByPriority (l + 1) m h u
    | medium => TaskStats.mkByPriority l (m + 1) h u
    | high => TaskStats.mkByPriority l m (h + 1) u
    | urgent => TaskStats.mkByPriority l m h (u + 1)
    end.

(** [if (c) stats.overdue++] and [if (c) stats.dueToday++] *)
Definition countOverdue (c : bool) (stats : TaskStats.t) : TaskStats.t :=
  let '(TaskStats.mk n p co a o d b) := stats in
  if c then TaskStats.mk n p co a (o + 1) d b else stats.

Definition countDueToday (c : bool) (stats : TaskStats.t) : TaskStats.t :=
  let '(TaskStats.mk n p co a o d b) := stats in
  if c then TaskStats.mk n p co a o (d + 1) b else stats.

(** The body of the [forEach] of [getTaskStats]. *)
Definition statsStep (tz now : Z) (stats : TaskStats.t) (task : Task)
    : TaskStats.t :=
  countDueToday (isTaskDueToday tz now task)
    (countOverdue (isTaskOverdue tz now task)
       (countPriority (priority task) (countStatus (status task) stats))).

Definition getTaskStats (tz now : Z) (tasks : list Task) : TaskStats.t :=
  fold_left (statsStep tz now) tasks
    (TaskStats.mk (Z.of_nat (length tasks)) 0 0 0 0 0
                  (TaskStats.mkByPriority 0 0 0 0)).

(** [s.includes(sub)] *)
Fixpoint includes (s sub : string) : bool :=
  String.prefix sub s
  || match s with
     | EmptyString => false
     | String _ s' => includes s' sub
     end.

(** Truthiness of an optional string: absent and [""] are falsy. *)
Definition nonempty (x : option string) : bool :=
  match x with
  | Some s => negb (bool_decide (s = ""))
  | None => false
  end.

(** [searchTasks]; [toLowerCase] is the platform's
    [String.prototype.toLowerCase]. *)
Definition searchTasks (toLowerCase : string -> string) (tasks : list Task)
    (query : string) : list Task :=
  let lowerQuery := toLowerCase query in
  List.filter
    (fun task =>
       includes (toLowerCase (title task)) lowerQuery
       || match description task with
          | Some s =>
              nonempty (Some s) && includes (toLowerCase s) lowerQuery
          | None => false
          end)
    tasks.

End utils.

(** ** src/hooks/useLocalStorage.ts *)

Module useLocalStorage.

Import utils.

(** *** JSON documents

    [JSON.parse (JSON.stringify v)] returns plain data: strings, arrays and
    enumeration tags come back as they were, a property holding [undefined]
    is left out, and a Date comes back as the string its [toJSON] produced.
    A stored text is represented by the document it denotes; only the
    date-typed properties change their type on the way. *)

Inductive JValue : Type :=
  | JAbsent
  | JNull
  | JString (s : string).

Record JTask : Type := mkJTask {
  j_id : string;
  j_title : string;
  j_description : option string;
  j_dueDate : JValue;
  j_priority : TaskPriority;
  j_status : TaskStatus;
  j_createdAt : JValue;
  j_updatedAt : JValue;
  j_completedAt : JValue;
  j_tags : option (list string);
  j_listId : option string;
}.

(** What a storage entry can hold: the text of a task array, or some text
    that [JSON.parse] rejects. *)
Inductive StoredText : Type :=
  | TasksJson (doc : list JTask)
  | Unparseable (s : string).

(** Truthiness of the string [getItem] returned: only the empty string is
    falsy (the text of an array is at least ["[]"]). *)
Definition text_truthy (t : StoredText) : bool :=
  match t with
  | TasksJson _ => true
  | Unparseable s => negb (bool_decide (s = ""))
  end.

Definition JSON_parse (t : StoredText) : Completion (list JTask) :=
  match t with
  | TasksJson doc => Normal doc
  | Unparseable _ => Throw "SyntaxError"
  end.

(** Truthiness of a parsed property: absent, [null] and [""] are falsy. *)
Definition jtruthy (v : JValue) : bool :=
  match v with
  | JString s => negb (bool_decide (s = ""))
  | _ => false
  end.

(** *** The world the hook runs in *)

Record World : Type := mkWorld {
  storedValue : list Task;                  (* the React state *)
  localStorage : gmap string StoredText;    (* window.localStorage *)
  console : list (string * string);         (* console.warn (message, error) *)
}.

(** The browser: whether [window] exists, and which writes the storage
    takes ([setItem] throws on the others: quota exceeded, storage
    disabled). *)
Record Browser : Type := mkBrowser {
  hasWindow : bool;
  accepts : string -> StoredText -> bool;
}.

(** Statements: they read and change the world, and complete or throw. *)
Definition Stmt (A : Type) : Type := World -> Completion A * World.

Definition ret {A} (a : A) : Stmt A := fun w => (Normal a, w).

Definition bind {A B} (m : Stmt A) (k : A -> Stmt B) : Stmt B :=
  fun w =>
    match m w with
    | (Normal a, w') => k a w'
    | (Throw e, w') => (Throw e, w')
    end.

Definition throw {A} (e : string) : Stmt A := fun w => (Throw e, w).

(** [try { body } catch (error) { handler }]: what [body] did to the world
    before it threw stays done. *)
Definition try_catch {A} (body : Stmt A) (handler : string -> Stmt A) : Stmt A :=
  fun w =>
    match body w with
    | (Normal a, w') => (Normal a, w')
    | (Throw e, w') => handler e w'
    end.

Notation "x <~ m ;> k" := (bind m (fun x => k))
  (at level 20, m at level 99, k at level 200, only parsing).
Notation "m ;> k" := (bind m (fun _ => k))
  (at level 100, k at level 200, right associativity, only parsing).

Definition lift {A} (c : Completion A) : Stmt A := fun w => (c, w).

Definition readState : Stmt (list Task) := fun w => (Normal (storedValue w), w).

Definition setStoredValue (v : list Task) : Stmt unit :=
  fun w => (Normal tt, mkWorld v (localStorage w) (console w)).

Definition getItem (key : string) : Stmt (option StoredText) :=
  fun w => (Normal (localStorage w !! key), w).

Definition setItem (b : Browser) (key : string) (text : StoredText) : Stmt unit :=
  fun w =>
    if accepts b key text
    then (Normal tt, mkWorld (storedValue w) (<[key := text]> (localStorage w))
                             (console w))
    else (Throw "QuotaExceededError", w).

Definition console_warn (msg err : string) : Stmt unit :=
  fun w => (Normal tt, mkWorld (storedValue w) (localStorage w)
                               (console w ++ [(msg, err)])).

Section Platform.

(** [Date.prototype.toISOString] on a time value, and [new Date(s)] on a
    string: the platform's, not this repository's. *)
Variable toISOString : Z -> string.
Variable parseDate : string -> Date.

(** [Date.prototype.toJSON]: the ISO string, or [null] for an invalid date. *)
Definition Date_toJSON (d : Date) : JValue :=
  match d with
  | Instant ms => JString (toISOString ms)
  | InvalidDate => JNull
  end.

Definition Nullable_toJSON (x : Nullable Date) : JValue :=
  match x with
  | Undefined => JAbsent
  | Null => JNull
  | Val d => Date_toJSON d
  end.

Definition Task_toJSON (t : Task) : JTask :=
  {| j_id := id t;
     j_title := title t;
     j_description := description t;
     j_dueDate := Nullable_toJSON (dueDate t);
     j_priority := priority t;
     j_status := status t;
     j_createdAt := Date_toJSON (createdAt t);
     j_updatedAt := Date_toJSON (updatedAt t);
     j_completedAt := Nullable_toJSON (completedAt t);
     j_tags := tags t;
     j_listId := listId t |}.

Definition JSON_stringify (ts : list Task) : StoredText :=
  TasksJson (map Task_toJSON ts).

(** [new Date(v)] for a parsed property [v]: a string is parsed,
    [new Date(null)] is the epoch, [new Date(undefined)] is invalid. *)
Definition new_Date (v : JValue) : Date :=
  match v with
  | JString s => parseDate s
  | JNull => Instant 0
  | JAbsent => InvalidDate
  end.

(** [v ? new Date(v) : null] *)
Definition dateOrNull (v : JValue) : Nullable Date :=
  if jtruthy v then Val (new_Date v) else Null.

(** The callback of [parsed.map]:
    [{ ...task, dueDate: ..., createdAt: ..., updatedAt: ..., completedAt: ... }] *)
Definition reconstruct (task : JTask) : Task :=
  {| id := j_id task;
     title := j_title task;
     description := j_description task;
     dueDate := dateOrNull (j_dueDate task);
     priority := j_priority task;
     status := j_status task;
     createdAt := new_Date (j_createdAt task);
     updatedAt := new_Date (j_updatedAt task);
     completedAt := dateOrNull (j_completedAt task);
     tags := j_tags task;
     listId := j_listId task |}.

(** The initializer passed to [useState]: the collection the hook starts
    with. *)
Definition load (b : Browser) (key : string) (initialValue : list Task)
    : Stmt (list Task) :=
  try_catch
    (if negb (hasWindow b) then ret initialValue
     else
       item <~ getItem key ;>
       match item with
       | Some text =>
           if text_truthy text then
             parsed <~ lift (JSON_parse text) ;>
             ret (map reconstruct parsed)
           else ret initialValue
       | None => ret initialValue
       end)
    (fun error =>
       console_warn ("Error reading from localStorage (" +:+ key +:+ "):") error ;>
       ret initialValue).

(** [value instanceof Function ? value(storedValue) : value]: the argument
    of [setValue] is a collection or a function of the current one. *)
Definition valueToStore (value : list Task + (list Task -> list Task))
    (current : list Task) : list Task :=
  match value with
  | inl v => v
  | inr f => f current
  end.

Definition setValue (b : Browser) (key : string)
    (value : list Task + (list Task -> list Task)) : Stmt unit :=
  try_catch
    (current <~ readState ;>
     let v := valueToStore value current in
     setStoredValue v ;>
     if hasWindow b then setItem b key (JSON_stringify v)
     else ret tt)
    (fun error =>
       console_warn ("Error writing to localStorage (" +:+ key +:+ "):") error).

(** [handleStorageChange]: a storage event [e] from another tab. *)
Definition handleStorageChange (key : string) (e_key : string)
    (e_newValue : option StoredText) : Stmt unit :=
  match e_newValue with
  | Some text =>
      if bool_decide (e_key = key) && text_truthy text then
        try_catch
          (parsed <~ lift (JSON_parse text) ;>
           setStoredValue (map reconstruct parsed))
          (fun error =>
             console_warn
               ("Error parsing storage update from another tab (" +:+ key +:+ "):")
               error)
      else ret tt
  | None => ret tt
  end.

End Platform.

(** The date instants of a task that are valid time values (ECMAScript
    time values lie within 8.64e15 ms of the epoch). *)
Definition valid_time (ms : Z) : Prop :=
  -8640000000000000 <= ms <= 8640000000000000.

Definition valid_date (d : Date) : Prop :=
  match d with
  | Instant ms => valid_time ms
  | InvalidDate => False
  end.

Definition valid_nullable (x : Nullable Date) : Prop :=
  match x with
  | Val d => valid_date d
  | _ => True
  end.

Definition valid_task (t : Task) : Prop :=
  valid_nullable (dueDate t) /\ valid_date (createdAt t)
  /\ valid_date (updatedAt t) /\ valid_nullable (completedAt t).

(** The specification's one "no value": an absent property read as [null]. *)
Definition absent_as_null {A} (x : Nullable A) : Nullable A :=
  match x with
  | Undefined => Null
  | _ => x
  end.

Definition nullified (t : Task) : Task :=
  {| id := id t;
     title := title t;
     description := description t;
     dueDate := absent_as_null (dueDate t);
     priority := priority t;
     status := status t;
     createdAt := createdAt t;
     updatedAt := updatedAt t;
     completedAt := absent_as_null (completedAt t);
     tags := tags t;
     listId := listId t |}.

(** Equality of tasks as the specification sees them: property by
    property, an absent nullable property being the same as a [null] one. *)
Definition same_task (a b : Task) : Prop := nullified a = nullified b.

End useLocalStorage.

(** ** src/pages/Home.tsx: the handlers that change the collection *)

Module Home.

(** The function [handleStatusChange] passes to [setTasks]:
    [{ ...task, status: newStatus,
       completedAt: newStatus === 'completed' ? new Date() : null }] *)
Definition statusChanged (now : Z) (newStatus : TaskStatus) (task : Task) : Task :=
  {| id := id task;
     title := title task;
     description := description task;
     dueDate := dueDate task;
     priority := priority task;
     status := newStatus;
     createdAt := createdAt task;
     updatedAt := updatedAt task;
     completedAt := if bool_decide (newStatus = completed) then Val (newDate now)
                    else Null;
     tags := tags task;
     listId := listId task |}.

Definition statusChange (now : Z) (taskId : string) (newStatus : TaskStatus)
    (prevTasks : list Task) : list Task :=
  map (fun task =>
         if bool_decide (id task = taskId) then statusChanged now newStatus task
         else task) prevTasks.

(** The function [handleDelete] passes to [setTasks]. *)
Definition deletion (taskId : string) (prevTasks : list Task) : list Task :=
  List.filter (fun task => negb (bool_decide (id task = taskId))) prevTasks.

(** The function [handleModalSave] passes to [setTasks]. *)
Definition modalSave (updatedTask : Task) (prevTasks : list Task) : list Task :=
  map (fun task =>
         if bool_decide (id task = id updatedTask) then updatedTask else task)
      prevTasks.



(** The storage key of the page. *)
Definition storageKey : string := "nimbustodo_tasks".


Section Handlers.

Variable toISOString : Z -> string.
Variable b : useLocalStorage.Browser.

(** [setTasks] is the setter of [useLocalStorage('nimbustodo_tasks', ...)]. *)
Definition setTasks (updater : list Task -> list Task)
    : useLocalStorage.Stmt unit :=
  useLocalStorage.setValue toISOString b storageKey (inr updater).

Definition handleStatusChange (now : Z) (taskId : string)
    (newStatus : TaskStatus) : useLocalStorage.Stmt unit :=
  setTasks (statusChange now taskId newStatus).

Definition handleDelete (taskId : string) : useLocalStorage.Stmt unit :=
  setTasks (deletion taskId).

Definition handleModalSave (updatedTask : Task) : useLocalStorage.Stmt unit :=
  setTasks (modalSave updatedTask).


End Handlers.

End Home.

(** ** src/components/TaskListDisplay.tsx: what the list shows *)

Module TaskListDisplay.

Inductive SortBy : Type :=
  | sort_priority | sort_dueDate | sort_createdAt | sort_none.

Inductive GroupBy : Type :=
  | group_status | group_priority | group_none.

(** The component's own [getPriorityValue]. *)
Definition getPriorityValue (p : TaskPriority) : Z :=
  match p with
  | low => 1
  | medium => 2
  | high => 3
  | urgent => 4
  end.

Definition getGroupLabel (groupBy : GroupBy) (groupKey : string) : string :=
  match groupBy with
  | group_status =>
      if bool_decide (groupKey = "pending") then "To Do"
      else if bool_decide (groupKey = "completed") then "Completed"
      else if bool_decide (groupKey = "archived") then "Archived"
      else groupKey
  | group_priority =>
      if bool_decide (groupKey = "urgent") then "🔴 Urgent"
      else if bool_decide (groupKey = "high") then "🟠 High"
      else if bool_decide (groupKey = "medium") then "🟡 Medium"
      else if bool_decide (groupKey = "low") then "🔵 Low"
      else groupKey
  | group_none => groupKey
  end.

Definition filteredTasks (tasks : list Task)
    (filterStatus : useTaskList.StatusOrAll) : list Task :=
  match filterStatus with
  | useTaskList.all =>
      List.filter (fun task => negb (bool_decide (status task = archived))) tasks
  | useTaskList.just s =>
      List.filter (fun task => bool_decide (status task = s)) tasks
  end.

Definition byPriorityDesc (a b : Task) : Z :=
  getPriorityValue (priority b) - getPriorityValue (priority a).

(** [new Date(b.createdAt).getTime() - new Date(a.createdAt).getTime()] *)
Definition byCreatedAtDesc (a b : Task) : Z :=
  sortOrder (Number_sub (getTime (copyDate (createdAt b)))
                        (getTime (copyDate (createdAt a)))).

(** [const sortedTasks = [...filteredTasks]] followed by the sort chosen. *)
Definition sortedTasks (sortBy : SortBy) (filtered : list Task) : list Task :=
  match sortBy with
  | sort_priority => Arrays.stable_sort byPriorityDesc filtered
  | sort_dueDate => Arrays.stable_sort utils.byDueDateAsc filtered
  | sort_createdAt => Arrays.stable_sort byCreatedAtDesc filtered
  | sort_none => filtered
  end.

(** [groupBy === 'status' ? task.status : task.priority] *)
Definition groupKeyOf (groupBy : GroupBy) (task : Task) : string :=
  match groupBy with
  | group_status => utils.String_status (status task)
  | _ => utils.String_priority (priority task)
  end.

Definition groupedTasks (sortBy : SortBy) (groupBy : GroupBy)
    (filtered : list Task) : utils.Completion (gmap string (list Task)) :=
  let sorted := sortedTasks sortBy filtered in
  match groupBy with
  | group_none => utils.Normal {[ "ungrouped" := sorted ]}
  | _ => utils.forEach_group (groupKeyOf groupBy) sorted ∅
  end.

Definition groupOrder (groupBy : GroupBy) : list string :=
  match groupBy with
  | group_status => ["pending"; "completed"]
  | group_priority => ["urgent"; "high"; "medium"; "low"]
  | group_none => ["ungrouped"]
  end.

(** What the component returns: the empty-state box with its message, or
    one block per group shown, each with its header (none when ungrouped)
    and its task items in order. *)
Inductive Rendered : Type :=
  | EmptyState (message : string)
  | Groups (blocks : list (option string * list Task)).

Definition block (groupBy : GroupBy) (grouped : gmap string (list Task))
    (groupKey : string) : option (option string * list Task) :=
  match grouped !! groupKey with
  | Some tasksInGroup =>
      if bool_decide (length tasksInGroup = 0%nat) then None
      else Some (match groupBy with
                 | group_none => None
                 | _ => Some (getGroupLabel groupBy groupKey)
                 end, tasksInGroup)
  | None => None
  end.

Definition render (tasks : list Task) (filterStatus : useTaskList.StatusOrAll)
    (sortBy : SortBy) (groupBy : GroupBy) (emptyMessage : string)
    : utils.Completion Rendered :=
  let filtered := filteredTasks tasks filterStatus in
  match groupedTasks sortBy groupBy filtered with
  | utils.Throw e => utils.Throw e
  | utils.Normal grouped =>
      if bool_decide (length filtered = 0%nat)
      then utils.Normal (EmptyState emptyMessage)
      else utils.Normal (Groups (omap (block groupBy grouped) (groupOrder groupBy)))
  end.

(** The task items on screen, top to bottom. *)
Definition shown (r : Rendered) : list Task :=
  match r with
  | EmptyState _ => []
  | Groups blocks => concat (map snd blocks)
  end.

End TaskListDisplay.

(** ** src/components/TaskForm.tsx: the state of the form *)

Module TaskForm.

Record Form : Type := mkForm {
  form_title : string;
  form_description : string;
  form_dueDate : string;
  form_priority : TaskPriority;
  form_tags : list string;
  form_newTag : string;
  form_errors : gmap string string;
}.

Section Platform.

(** [String.prototype.trim], and [new Date(s)] on the text of a date
    input. *)
Variable trim : string -> string.
Variable parseDate : string -> Date.

(** [validateForm]: its result and the form with the errors it set. *)
Definition validateForm (f : Form) : bool * Form :=
  let newErrors : gmap string string :=
    if bool_decide (trim (form_title f) = "")
    then {[ "title" := "Title is required" ]}
    else ∅ in
  (bool_decide (size newErrors = 0%nat),
   mkForm (form_title f) (form_description f) (form_dueDate f)
          (form_priority f) (form_tags f) (form_newTag f) newErrors).

(** [handleSubmit]: the input handed to [onSubmit], if any, and the form
    afterwards. *)
Definition handleSubmit (f : Form) : option TaskInput * Form :=
  let '(valid, f') := validateForm f in
  if negb valid then (None, f')
  else
    let taskInput :=
      {| input_title := trim (form_title f');
         input_description :=
           if bool_decide (trim (form_description f') = "") then None
           else Some (trim (form_description f'));
         input_dueDate :=
           if bool_decide (form_dueDate f' = "") then Null
           else Val (parseDate (form_dueDate f'));
         input_priority := form_priority f';
         input_status := None;
         input_tags :=
           if bool_decide (0 < length (form_tags f'))%nat
           then Some (form_tags f') else None;
         input_listId := None |} in
    (Some taskInput, mkForm "" "" "" medium [] "" (form_errors f')).

Definition handleAddTag (f : Form) : Form :=
  if negb (bool_decide (trim (form_newTag f) = ""))
     && negb (bool_decide (trim (form_newTag f) ∈ form_tags f))
  then mkForm (form_title f) (form_description f) (form_dueDate f)
              (form_priority f) (form_tags f ++ [trim (form_newTag f)]) ""
              (form_errors f)
  else f.

Definition handleRemoveTag (tag : string) (f : Form) : Form :=
  mkForm (form_title f) (form_description f) (form_dueDate f)
         (form_priority f)
         (List.filter (fun t => negb (bool_decide (t = tag))) (form_tags f))
         (form_newTag f) (form_errors f).

End Platform.

End TaskForm.

(** ** src/components/TaskDetailModal.tsx: editing one task *)

Module TaskDetailModal.

Section Platform.

Variable trim : string -> string.

Definition setTags (task : Task) (newTags : option (list string)) : Task :=
  {| id := id task;
     title := title task;
     description := description task;
     dueDate := dueDate task;
     priority := priority task;
     status := status task;
     createdAt := createdAt task;
     updatedAt := updatedAt task;
     completedAt := completedAt task;
     tags := newTags;
     listId := listId task |}.

(** [editedTask.tags?.includes(x)]: [undefined] (falsy) without tags. *)
Definition tagsInclude (task : Task) (x : string) : bool :=
  match tags task with
  | Some l => bool_decide (x ∈ l)
  | None => false
  end.

(** [handleAddTag]: the next [editedTask]. *)
Definition handleAddTag (newTag : string) (editedTask : option Task)
    : option Task :=
  match editedTask with
  | Some task =>
      if negb (bool_decide (trim newTag = ""))
         && negb (tagsInclude task (trim newTag))
      then Some (setTags task
                   (Some (match tags task with Some l => l | None => [] end
                          ++ [trim newTag])))
      else editedTask
  | None => None
  end.

Definition handleRemoveTag (tag : string) (editedTask : option Task)
    : option Task :=
  match editedTask with
  | Some task =>
      Some (setTags task
              (match tags task with
               | Some l => Some (List.filter (fun t => negb (bool_decide (t = tag))) l)
               | None => None
               end))
  | None => None
  end.

(** [validateForm]: its result and the errors it set. *)
Definition validateForm (editedTask : option Task) : bool * gmap string string :=
  let newErrors : gmap string string :=
    match editedTask with
    | Some task =>
        if bool_decide (trim (title task) = "")
        then {[ "title" := "Title is required" ]} else ∅
    | None => {[ "title" := "Title is required" ]}
    end in
  (bool_decide (size newErrors = 0%nat), newErrors).

(** [handleSave]: the task handed to [onSave], if any. *)
Definition handleSave (now : Z) (editedTask : option Task) : option Task :=
  if negb (validateForm editedTask).1 then None
  else
    match editedTask with
    | Some task =>
        Some {| id := id task;
                title := trim (title task);
                description :=
                  match description task with
                  | Some s => if bool_decide (trim s = "") then None
                              else Some (trim s)
                  | None => None
                  end;
                dueDate := dueDate task;
                priority := priority task;
                status := status task;
                createdAt := createdAt task;
                updatedAt := newDate now;
                completedAt := completedAt task;
                tags := tags task;
                listId := listId task |}
    | None => None
    end.

End Platform.

(** The state of the modal. *)
Record Modal : Type := mkModal {
  isEditing : bool;
  editedTask : option Task;
  errors : gmap string string
}.

(** The [updatedTask] of [handleStatusChange]:
    [{ ...editedTask, status: newStatus,
       completedAt: newStatus === 'completed' ? new Date() : null,
       updatedAt: new Date() }] *)
Definition updatedTask (now : Z) (newStatus : TaskStatus) (task : Task) : Task :=
  {| id := id task;
     title := title task;
     description := description task;
     dueDate := dueDate task;
     priority := priority task;
     status := newStatus;
     createdAt := createdAt task;
     updatedAt := newDate now;
     completedAt := if bool_decide (newStatus = completed)
                    then Val (newDate now) else Null;
     tags := tags task;
     listId := listId task |}.

(** [handleStatusChange], for the [task] and the optional [onStatusChange]
    the modal was given: if there is an [editedTask], [setEditedTask],
    then [onStatusChange?.(task.id, newStatus)], which acts on the state
    of the parent, then [setIsEditing(false)]. *)
Definition handleStatusChange {P : Type} (now : Z) (task : Task)
    (onStatusChange :
       option (string -> TaskStatus -> P -> utils.Completion unit * P))
    (newStatus : TaskStatus) (m : Modal) (parent : P)
    : utils.Completion unit * (Modal * P) :=
  match editedTask m with
  | Some edited =>
      let m1 := {| isEditing := isEditing m;
                   editedTask := Some (updatedTask now newStatus edited);
                   errors := errors m |} in
      let m2 := {| isEditing := false;
                   editedTask := editedTask m1;
                   errors := errors m1 |} in
      match onStatusChange with
      | Some callback =>
          match callback (id task) newStatus parent with
          | (utils.Normal _, parent') => (utils.Normal tt, (m2, parent'))
          | (utils.Throw error, parent') => (utils.Throw error, (m1, parent'))
          end
      | None => (utils.Normal tt, (m2, parent))
      end
  | None => (utils.Normal tt, (m, parent))
  end.


End TaskDetailModal.

(** ** src/pages/Home.tsx: the modal as the page mounts it

    [<TaskDetailModal task={selectedTask} isOpen={isModalOpen} ...
       onStatusChange={handleModalStatusChange} />] *)

Module HomeModal.



Section Mounted.

Variable toISOString : Z -> string.
Variable b : useLocalStorage.Browser.


End Mounted.

End HomeModal.

(** ** The task item component (TaskItem): due-date label and style *)

Module TaskItem.

Definition isToday (tz now : Z) (date : Date) : bool :=
  sameYMD tz date (newDate now).

Definition isTomorrow (tz now : Z) (date : Date) : bool :=
  sameYMD tz date (nextDay (newDate now)).

Definition isPast (now : Z) (date : Date) : bool :=
  date_ltb date (newDate now).

(** A number inside a template literal. *)
Definition numberText (x : option Z) : string :=
  match x with
  | Some z => pretty z
  | None => "NaN"
  end.

Section Platform.

(** [date.toLocaleDateString('en-US', { month: 'short' })] *)
Variable monthShort : Date -> string.

Definition formatDate (tz now : Z) (date : Date) : string :=
  let month := monthShort date in
  let day := getDate tz date in
  let year := getFullYear tz date in
  let today := newDate now in
  let isCurrentYear := num_eq year (getFullYear tz today) in
  if isCurrentYear then month +:+ " " +:+ numberText day
  else month +:+ " " +:+ numberText day +:+ ", " +:+ numberText year.

Definition formatDueDate (tz now : Z) (dueDate : Nullable Date) : option string :=
  match dueDate with
  | Val date =>
      if isToday tz now date then Some "Today"
      else if isTomorrow tz now date then Some "Tomorrow"
      else if isPast now date then Some ("Overdue: " +:+ formatDate tz now date)
      else Some (formatDate tz now date)
  | _ => None
  end.

End Platform.

Definition getDueDateStyles (tz now : Z) (dueDate : Nullable Date) : string :=
  match dueDate with
  | Val date =>
      if isPast now date && negb (isToday tz now date)
      then "text-red-600 dark:text-red-400 font-semibold"
      else if isToday tz now date
      then "text-orange-600 dark:text-orange-400 font-semibold"
      else "text-gray-600 dark:text-gray-400"
  | _ => "text-gray-500 dark:text-gray-400"
  end.

(** [handleToggleComplete]: the arguments of the [onStatusChange] call. *)
Definition handleToggleComplete (task : Task) : string * TaskStatus :=
  let isCompleted := bool_decide (status task = completed) in
  let newStatus := if isCompleted then pending else completed in
  (id task, newStatus).

End TaskItem.

(** * Predicates of the specification *)

Import useTaskList.

(** "[completedAt] is non-null if and only if [status == completed]". *)
Definition completion_inv (t : Task) : Prop :=
  truthy (completedAt t) = true <-> status t = completed.

(** One half of it: a completed task has a completion instant. *)
Definition completed_has_instant (t : Task) : Prop :=
  status t = completed -> truthy (completedAt t) = true.

(** "[updatedAt >= createdAt]". *)
Definition updated_after_created (t : Task) : Prop :=
  date_geb (updatedAt t) (createdAt t) = true.

(** The task was created at or before [now]. *)
Definition created_by (now : Z) (t : Task) : Prop :=
  date_geb (newDate now) (createdAt t) = true.

(** What [getOverdueTasks] selects at instant [now]: a due date that is
    present and strictly before [now] itself, on a task neither completed
    nor archived. *)
Definition overdue_at_instant (now : Z) (t : Task) : Prop :=
  match dueDate t with
  | Val (Instant d) => d < now /\ status t <> completed /\ status t <> archived
  | _ => False
  end.

Global Instance overdue_at_instant_dec now t : Decision (overdue_at_instant now t).
Proof. unfold overdue_at_instant. destruct (dueDate t) as [| |[]]; apply _. Defined.

(** The start of the local calendar day of instant [t] (local time is UTC
    plus [tz] milliseconds). *)
Definition startOfDay (tz t : Z) : Z := t - (t + tz) mod msPerDay.

(** The specification's [isOverdue], in its words: "[dueDate] is present,
    strictly before the start of [now]'s calendar day, and [status] is
    neither [completed] nor [archived]", both dates truncated to midnight. *)
Definition spec_isOverdue (tz now : Z) (t : Task) : Prop :=
  match dueDate t with
  | Val (Instant d) =>
      startOfDay tz d < startOfDay tz now
      /\ status t <> completed /\ status t <> archived
  | _ => False
  end.

Global Instance spec_isOverdue_dec tz now t : Decision (spec_isOverdue tz now t).
Proof. unfold spec_isOverdue. destruct (dueDate t) as [| |[]]; apply _. Defined.

(** [priorityRank]-descending order: [a] may stand before [b]. *)
Definition rank_ge (a b : Task) : Prop :=
  utils.getPriorityValue (priority b) <= utils.getPriorityValue (priority a).

(** The tasks of priority [p], in the order of the list. *)
Definition of_priority (p : TaskPriority) (l : list Task) : list Task :=
  filter (fun t => priority t = p) l.

(** The fields a task list can be grouped by (the [groupBy] of the list
    view: ['status' | 'priority']). *)
Definition groupable (k : utils.TaskKey) : Prop :=
  k = utils.k_status \/ k = utils.k_priority.

(** The tasks whose key is [k], in the order of the list. *)
Definition with_key (key : Task -> string) (k : string) (l : list Task)
    : list Task :=
  filter (fun t => key t = k) l.

(** [grouped] holds, for every key, the tasks of [l] with that key in their
    order in [l], and no group for a key that no task of [l] has. *)
Definition grouping (key : Task -> string) (l : list Task)
    (grouped : gmap string (list Task)) : Prop :=
  forall k, grouped !! k
            = match with_key key k l with [] => None | g => Some g end.

(** No key that names an inherited member is an own property of
    [grouped]. *)
Definition no_inherited_keys (grouped : gmap string (list Task)) : Prop :=
  forall k, utils.inherited k = true -> grouped !! k = None.

(** The groups, one after the other. *)
Definition all_groups (grouped : gmap string (list Task)) : list Task :=
  concat (map snd (map_to_list grouped)).

(** A platform to run the persisted store on in examples: a date is
    written as the letter T followed by its time value in decimal, and read
    back from that form; any other text is no date. *)
Definition stamp_toString (ms : Z) : string :=
  String "T"%char (NilEmpty.string_of_int (Z.to_int ms)).

Definition stamp_parse (s : string) : Date :=
  match s with
  | String "T"%char digits =>
      match NilEmpty.int_of_string digits with
      | Some d => Instant (Z.of_int d)
      | None => InvalidDate
      end
  | _ => InvalidDate
  end.

(** A rendering of dates in the same style, for [String(date)]. *)
Definition stamp_date (d : Date) : string :=
  match d with
  | Instant ms => stamp_toString ms
  | InvalidDate => "Invalid Date"
  end.

(** A browser whose storage takes every write, and one whose storage takes
    none. *)
Definition browser_ok : useLocalStorage.Browser :=
  useLocalStorage.mkBrowser true (fun _ _ => true).

Definition browser_full : useLocalStorage.Browser :=
  useLocalStorage.mkBrowser true (fun _ _ => false).

Definition emptyWorld : useLocalStorage.World :=
  useLocalStorage.mkWorld [] ∅ [].

(** The due instant of a task, [None] when it has no due date (or an
    invalid one). *)
Definition dueKey (t : Task) : option Z :=
  match dueDate t with
  | Val (Instant d) => Some d
  | _ => None
  end.

(** Earlier due date first, no due date last. *)
Definition due_le (a b : Task) : Prop :=
  match dueKey a, dueKey b with
  | Some x, Some y => x <= y
  | _, None => True
  | None, Some _ => False
  end.

(** The tasks whose due instant is [k], in the order of the list. *)
Definition with_due (k : option Z) (l : list Task) : list Task :=
  filter (fun t => dueKey t = k) l.

(** The tasks that have a due instant, in the order of the list. *)
Definition dated (l : list Task) : list Task :=
  filter (fun t => is_Some (dueKey t)) l.

(** The due date, when there is one, is a valid date. *)
Definition valid_due (t : Task) : Prop := dueDate t <> Val InvalidDate.

(** How many tasks of [l] the test [f] accepts. *)
Definition tally (f : Task -> bool) (l : list Task) : Z :=
  Z.of_nat (length (List.filter f l)).

(** Lower-casing of the letters A to Z, to run [searchTasks] on ASCII
    text. *)
Definition lower_ascii (c : ascii) : ascii :=
  let n := nat_of_ascii c in
  if ((65 <=? n) && (n <=? 90))%nat then ascii_of_nat (n + 32) else c.

Fixpoint lowerAscii (s : string) : string :=
  match s with
  | EmptyString => EmptyString
  | String c s' => String (lower_ascii c) (lowerAscii s')
  end.

(** *** Checking the calendar over one 400-year era

    [era_ok doe] says that the year, month and day computed from day
    [doe] of an era lead back to [doe]; [all_from] runs such a test over a
    range of integers. *)

Definition era_ok (doe : Z) : bool :=
  let yoe := (doe - doe / 1460 + doe / 36524 - doe / 146096) / 365 in
  let doy := doe - (365 * yoe + yoe / 4 - yoe / 100) in
  let mp := (5 * doy + 2) / 153 in
  let d := doy - (153 * mp + 2) / 5 + 1 in
  (0 <=? yoe)%Z && (yoe <? 400)%Z && (0 <=? mp)%Z && (mp <? 12)%Z
  && (yoe * 365 + yoe / 4 - yoe / 100 + ((153 * mp + 2) / 5 + d - 1) =? doe)%Z.

Fixpoint all_from (fuel : nat) (i : Z) (f : Z -> bool) : bool :=
  match fuel with
  | O => true
  | S k => f i && all_from k (i + 1) f
  end.

(** ** Sample tasks used at concrete inputs *)

Definition sampleTask (i : string) (p : TaskPriority) (s : TaskStatus)
    (due done : Nullable Date) (created updated : Z) : Task :=
  {| id := i; title := "task " +:+ i; description := None; dueDate := due;
     priority := p; status := s;
     createdAt := Instant created; updatedAt := Instant updated;
     completedAt := done; tags := None; listId := None |}.

Definition sampleInput (s : option TaskStatus) : TaskInput :=
  {| input_title := "Buy milk"; input_description := None;
     input_dueDate := Undefined; input_priority := low; input_status := s;
     input_tags := None; input_listId := None |}.

(** The tags of a task, none when the property is absent. *)
Definition tags_of (t : Task) : list string :=
  match tags t with Some l => l | None => [] end.

(** A form being filled in. *)
Definition sampleForm (title newTag : string) (tags : list string)
    : TaskForm.Form :=
  TaskForm.mkForm title "  " "" high tags newTag ∅.

(** Removal of the blanks at both ends of a text, for examples: only the
    texts made of blanks alone are touched. *)
Definition trimBlank (s : string) : string :=
  if bool_decide (s = " ") || bool_decide (s = "  ") then "" else s.

(** * Properties *)

(** ** Boolean callbacks and the predicates they decide *)

Lemma filter_bool_Prop {A} (P : A -> Prop) `{!forall x, Decision (P x)}
    (f : A -> bool) (l : list A) :
  (forall x, f x = true <-> P x) -> List.filter f l = filter P l.
Proof.
  intros Hf. induction l as [|x l IH]; [done|].
  simpl. rewrite filter_cons. destruct (f x) eqn:E.
  - rewrite decide_True by (by apply Hf). by rewrite IH.
  - rewrite decide_False; [done|]. intros HP. apply Hf in HP. congruence.
Qed.

Lemma filter_all_iff {A} (P : A -> Prop) `{!forall x, Decision (P x)}
    (l : list A) :
  filter P l = l <-> Forall P l.
Proof.
  split.
  - intros E. rewrite <- E. apply list.Forall_forall.
    intros x Hx. by apply list_elem_of_filter in Hx as [? _].
  - induction 1 as [|x l Hx _ IH]; [done|].
    rewrite filter_cons, decide_True by done. by rewrite IH.
Qed.

(** ** The status query helper (C10) *)

(** C10.  [getTasksByStatus 'all'] returns, in order, exactly the tasks
    whose status is not [archived]; [getTasksByStatus s] returns, in order,
    exactly the tasks whose status is [s]; and the result for ['all'] is the
    full collection only when the collection holds no archived task. *)
Theorem getTasksByStatus_spec (tasks : list Task) :
  getTasksByStatus tasks all = filter (fun t => status t <> archived) tasks
  /\ (forall s : TaskStatus,
        getTasksByStatus tasks (just s) = filter (fun t => status t = s) tasks)
  /\ (getTasksByStatus tasks all = tasks
      <-> Forall (fun t => status t <> archived) tasks).
Proof.
  assert (Hall : getTasksByStatus tasks all
                 = filter (fun t => status t <> archived) tasks).
  { apply filter_bool_Prop. intros t.
    rewrite negb_true_iff, bool_decide_eq_false. tauto. }
  split; [exact Hall|]. split.
  - intros s. apply filter_bool_Prop. intros t. apply bool_decide_eq_true.
  - rewrite Hall. apply filter_all_iff.
Qed.

(** An archived task is left out of the ['all'] view. *)
Example getTasksByStatus_all_drops_archived :
  getTasksByStatus
    [ sampleTask "1" low pending Undefined Undefined 1 1;
      sampleTask "2" low archived Undefined Null 1 2 ] all
  = [ sampleTask "1" low pending Undefined Undefined 1 1 ].
Proof. reflexivity. Qed.

(** ** Adding a task (C5) *)



(** ** Updating a task (C4) *)






(** ** The completion invariant (C1) *)

Lemma Forall_map_preserved {A} (P Q : A -> Prop) (f : A -> A) (l : list A) :
  (forall x, P x -> Q (f x)) -> Forall P l -> Forall Q (map f l).
Proof. intros Hf. induction 1; simpl; constructor; auto. Qed.

Lemma Forall_filter_bool {A} (P : A -> Prop) (f : A -> bool) (l : list A) :
  Forall P l -> Forall P (List.filter f l).
Proof.
  induction 1 as [|x l Hx _ IH]; simpl; [constructor|].
  destruct (f x); [by constructor | exact IH].
Qed.

Lemma completion_inv_withStatus now st t : completion_inv (withStatus now st t).
Proof. unfold completion_inv. simpl. case_bool_decide; simpl; split; congruence. Qed.

Lemma completion_inv_mergeTask now updates t :
  upd_status updates = None -> upd_completedAt updates = None ->
  completion_inv t -> completion_inv (mergeTask now updates t).
Proof. unfold completion_inv. simpl. by intros -> ->. Qed.

Lemma completion_inv_newTask now rnd input :
  completion_inv (newTask now rnd input) <-> input_status input <> Some completed.
Proof.
  unfold completion_inv. simpl. destruct (input_status input) as [[]|]; simpl;
    split; try congruence; try (intros [_ H]; by specialize (H eq_refl));
    intros _; split; congruence.
Qed.

Lemma completion_inv_archive t :
  completion_inv t -> completion_inv (archive t) <-> status t <> completed.
Proof.
  unfold completion_inv. simpl. intros [H1 H2]. split.
  - intros [H3 _] Hc. specialize (H3 (H2 Hc)). discriminate.
  - intros Hn. split; [intros Ht; by apply H1 in Ht | discriminate].
Qed.

Lemma clearCompleted_id prev :
  Forall (fun t => status t <> completed) prev -> clearCompleted prev = prev.
Proof.
  unfold clearCompleted. induction 1 as [|t prev Ht _ IH]; simpl; [done|].
  rewrite bool_decide_eq_false_2 by done. by rewrite IH.
Qed.

(** Against C1 as stated: three operations leave the invariant broken on a
    collection that satisfied it: archiving a completed task keeps its [completedAt];
    adding with [status: 'completed'] builds a completed task without
    [completedAt]; an update payload with [status: 'completed'] alone marks
    a task completed without [completedAt]. *)
Lemma completion_inv_not_preserved :
  let done := sampleTask "1" low completed Undefined (Val (Instant 1)) 1 1 in
  let todo := sampleTask "2" low pending Undefined Undefined 1 1 in
  let complete :=
    mkPartialTask None None None None None (Some completed) None None None
                  None None in
  (Forall completion_inv [done]
   /\ ~ Forall completion_inv (clearCompleted [done]))
  /\ (Forall completion_inv []
      /\ ~ Forall completion_inv
             (snd (addTask 5 "r" (sampleInput (Some completed)) [])))
  /\ (Forall completion_inv [todo]
      /\ ~ Forall completion_inv (updateTask 5 "2" complete [todo])).
Proof.
  intros done todo complete.
  assert (Hbroken : forall t l,
             (truthy (completedAt t) = true <-> status t <> completed) ->
             ~ Forall completion_inv (t :: l)).
  { intros t l Ht H. apply Forall_cons_1 in H as [Hinv _].
    unfold completion_inv in Hinv. destruct (truthy (completedAt t));
      destruct (decide (status t = completed)); intuition congruence. }
  split; [|split]; (split; [|apply Hbroken; simpl; split; congruence]).
  - constructor; [|constructor]. split; reflexivity.
  - constructor.
  - constructor; [|constructor]. split; discriminate.
Qed.

(** C1, as amended.  On a collection that satisfies the invariant
    "[completedAt] is non-null iff [status == completed]":
    [deleteTask] and [updateTaskStatus] preserve it; [addTask] preserves it
    exactly when the input's status is not [completed]; [updateTask]
    preserves it when the payload carries neither [status] nor
    [completedAt]; [clearCompleted], which does not touch [completedAt],
    keeps "a completed task has a completion instant" and preserves the
    full invariant exactly when there was no completed task to archive. *)
Theorem completion_inv_operations (now : Z) (id0 rnd : string)
    (st : TaskStatus) (input : TaskInput) (updates : PartialTask)
    (prev : list Task) :
  Forall completion_inv prev ->
  Forall completion_inv (deleteTask id0 prev)
  /\ Forall completion_inv (updateTaskStatus now id0 st prev)
  /\ (Forall completion_inv (snd (addTask now rnd input prev))
      <-> input_status input <> Some completed)
  /\ (upd_status updates = None -> upd_completedAt updates = None ->
      Forall completion_inv (updateTask now id0 updates prev))
  /\ Forall completed_has_instant (clearCompleted prev)
  /\ (Forall completion_inv (clearCompleted prev)
      <-> Forall (fun t => status t <> completed) prev).
Proof.
  intros Hinv. repeat apply conj.
  - by apply Forall_filter_bool.
  - unfold updateTaskStatus. eapply Forall_map_preserved; [|exact Hinv].
    intros t Ht. case_bool_decide; [apply completion_inv_withStatus | exact Ht].
  - simpl. rewrite Forall_cons. rewrite completion_inv_newTask. tauto.
  - simpl. intros H. constructor; [by apply completion_inv_newTask | exact Hinv].
  - intros Hs Hc. unfold updateTask.
    eapply Forall_map_preserved; [|exact Hinv].
    intros t Ht. case_bool_decide; [by apply completion_inv_mergeTask | exact Ht].
  - unfold clearCompleted. eapply Forall_map_preserved; [|exact Hinv].
    intros t [_ Ht]. unfold completed_has_instant.
    case_bool_decide; simpl; [discriminate | exact Ht].
  - unfold clearCompleted. induction Hinv as [|t prev Ht _ IH]; [constructor|].
    simpl. intros H. apply Forall_cons_1 in H as [H1 H2].
    constructor; [|by apply IH].
    case_bool_decide as Hc; [|exact Hc].
    apply (completion_inv_archive t Ht) in H1. contradiction.
  - intros Hn. by rewrite clearCompleted_id.
Qed.

Lemma completion_inv_operations_witness :
  let done := sampleTask "1" low completed Undefined (Val (Instant 1)) 1 1 in
  let todo := sampleTask "2" low pending Undefined Undefined 1 1 in
  Forall completion_inv (deleteTask "1" [done; todo])
  /\ Forall completion_inv (updateTaskStatus 7 "2" completed [done; todo])
  /\ Forall completion_inv (snd (addTask 7 "r" (sampleInput None) [done; todo])).
Proof.
  intros done todo.
  assert (Hinv : Forall completion_inv [done; todo]).
  { constructor; [split; reflexivity|].
    constructor; [split; discriminate|]. constructor. }
  destruct (completion_inv_operations 7 "1" "r" completed (sampleInput None)
              noUpdates [done; todo] Hinv) as (Hdel & _ & Hadd & _).
  split; [exact Hdel|].
  destruct (completion_inv_operations 7 "2" "r" completed (sampleInput None)
              noUpdates [done; todo] Hinv) as (_ & Hset & _).
  split; [exact Hset|]. apply Hadd. discriminate.
Defined.

(** ** Refreshing [updatedAt] (C3) *)

Lemma map_where_Forall2 {A} (R : A -> A -> Prop) (c : A -> bool) (f : A -> A)
    (l : list A) :
  (forall x, c x = true -> R x (f x)) ->
  (forall x, c x = false -> R x x) ->
  Forall2 R l (map (fun x => if c x then f x else x) l).
Proof.
  intros Hhit Hmiss. induction l as [|x l IH]; simpl; constructor; [|exact IH].
  destruct (c x) eqn:E; auto.
Qed.

(** Against C3 as stated, in two ways.  An update payload that carries [createdAt]
    can put the creation instant after the refreshed [updatedAt]; and
    [clearCompleted] changes the status of a task without touching its
    [updatedAt]. *)
Lemma updatedAt_refresh_fails :
  let t := sampleTask "a" low pending Undefined Undefined 1 1 in
  let payload :=
    mkPartialTask None None None None None None (Some (Instant 9)) None None
                  None None in
  let done := sampleTask "1" low completed Undefined (Val (Instant 1)) 1 1 in
  (Forall updated_after_created [t] /\ Forall (created_by 5) [t]
   /\ ~ Forall updated_after_created (updateTask 5 "a" payload [t]))
  /\ (clearCompleted [done] <> [done]
      /\ map updatedAt (clearCompleted [done]) = [Instant 1]
      /\ Instant 1 <> newDate 5).
Proof.
  intros t payload done. split; [split; [|split] | split; [|split]].
  - constructor; [reflexivity | constructor].
  - constructor; [reflexivity | constructor].
  - intros H. apply Forall_cons_1 in H as [H _]. discriminate H.
  - discriminate.
  - reflexivity.
  - discriminate.
Qed.

(** C3, as amended.  After [updateTask] or [updateTaskStatus] applied at
    instant [now], every task that differs from what it was has
    [updatedAt == now].  If moreover [updatedAt >= createdAt] held for
    every task, no task was created after [now], and the update payload
    carries no [createdAt], then [updatedAt >= createdAt] holds for every
    task afterwards. *)
Theorem updatedAt_refreshed (now : Z) (id0 : string) (st : TaskStatus)
    (updates : PartialTask) (prev : list Task) :
  Forall2 (fun t t' => t' <> t -> updatedAt t' = newDate now)
          prev (updateTask now id0 updates prev)
  /\ Forall2 (fun t t' => t' <> t -> updatedAt t' = newDate now)
             prev (updateTaskStatus now id0 st prev)
  /\ (Forall updated_after_created prev -> Forall (created_by now) prev ->
      upd_createdAt updates = None ->
      Forall updated_after_created (updateTask now id0 updates prev))
  /\ (Forall updated_after_created prev -> Forall (created_by now) prev ->
      Forall updated_after_created (updateTaskStatus now id0 st prev)).
Proof.
  split; [|split; [|split]].
  - apply (map_where_Forall2 _ (fun t => bool_decide (id t = id0))); done.
  - apply (map_where_Forall2 _ (fun t => bool_decide (id t = id0))); done.
  - intros Hinv Hnow Hc. unfold updateTask.
    apply (Forall_map_preserved (fun t => updated_after_created t /\ created_by now t));
      [|apply Forall_and; by split].
    intros t [Hu Hn]. case_bool_decide; [|exact Hu].
    unfold updated_after_created, created_by in *. simpl. rewrite Hc. exact Hn.
  - intros Hinv Hnow. unfold updateTaskStatus.
    apply (Forall_map_preserved (fun t => updated_after_created t /\ created_by now t));
      [|apply Forall_and; by split].
    intros t [Hu Hn]. case_bool_decide; [|exact Hu]. exact Hn.
Qed.

(** Scenario 2 of the specification: a pending task set to [completed] at
    instant 7. *)
Lemma updatedAt_refreshed_witness :
  let t := sampleTask "a" low pending Undefined Undefined 1 1 in
  let rename :=
    mkPartialTask None (Some "renamed") None None None None None None None
                  None None in
  Forall updated_after_created (updateTask 7 "a" rename [t])
  /\ Forall updated_after_created (updateTaskStatus 7 "a" completed [t])
  /\ map updatedAt (updateTaskStatus 7 "a" completed [t]) = [Instant 7]
  /\ map completedAt (updateTaskStatus 7 "a" completed [t]) = [Val (Instant 7)].
Proof.
  intros t rename.
  assert (H1 : Forall updated_after_created [t])
    by (constructor; [reflexivity | constructor]).
  assert (H2 : Forall (created_by 7) [t])
    by (constructor; [reflexivity | constructor]).
  destruct (updatedAt_refreshed 7 "a" completed rename [t])
    as (_ & _ & Hupd & Hset).
  split; [exact (Hupd H1 H2 eq_refl)|]. split; [exact (Hset H1 H2)|].
  split; reflexivity.
Defined.

(** ** The overdue query helper (C2) *)

Lemma startOfDay_lt (tz a b : Z) :
  startOfDay tz a < startOfDay tz b -> a < b.
Proof.
  unfold startOfDay, msPerDay. intros H.
  destruct (Z_lt_le_dec a b) as [Hlt|Hle]; [exact Hlt|exfalso].
  assert (Hdiv : (b + tz) / 86400000 <= (a + tz) / 86400000)
    by (apply Z.div_le_mono; lia).
  pose proof (Z.div_mod (a + tz) 86400000 ltac:(lia)).
  pose proof (Z.div_mod (b + tz) 86400000 ltac:(lia)).
  lia.
Qed.

(** [isTaskOverdue] computes the specification's [isOverdue]. *)
Lemma isTaskOverdue_spec (tz now : Z) (t : Task) :
  utils.isTaskOverdue tz now t = true <-> spec_isOverdue tz now t.
Proof.
  unfold utils.isTaskOverdue, spec_isOverdue, startOfDay.
  destruct (dueDate t) as [| |[d|]]; simpl; try (split; [discriminate|tauto]).
  - destruct (status t); simpl.
    + rewrite bool_decide_eq_true. intuition congruence.
    + split; [discriminate | intuition congruence].
    + split; [discriminate | intuition congruence].
  - destruct (status t); simpl; split; (discriminate || tauto).
Qed.

Lemma overdueNow_spec (now : Z) (t : Task) :
  overdueNow now t = true <-> overdue_at_instant now t.
Proof.
  unfold overdueNow, overdue_at_instant.
  destruct (dueDate t) as [| |[d|]]; simpl; try (split; [discriminate|tauto]).
  rewrite !andb_true_iff, !negb_true_iff, !bool_decide_eq_false,
    bool_decide_eq_true. tauto.
Qed.

Lemma spec_isOverdue_at_instant (tz now : Z) (t : Task) :
  spec_isOverdue tz now t -> overdue_at_instant now t.
Proof.
  unfold spec_isOverdue, overdue_at_instant.
  destruct (dueDate t) as [| |[d|]]; try done.
  intros (Hlt & ? & ?). split; [|done]. by apply (startOfDay_lt tz).
Qed.

(** Against C2 as stated: a task due at 08:00 is returned by the helper at
    12:00 of the same day,
    and is not overdue for [isTaskOverdue] nor for the specification's
    predicate. *)
Lemma getOverdueTasks_not_isOverdue :
  let t := sampleTask "1" low pending (Val (Instant 28800000)) Undefined 0 0 in
  getOverdueTasks 43200000 [t] = [t]
  /\ List.filter (utils.isTaskOverdue 0 43200000) [t] = []
  /\ getOverdueTasks 43200000 [t] <> filter (spec_isOverdue 0 43200000) [t].
Proof.
  intros t. split; [reflexivity|]. split; [reflexivity|].
  vm_compute. discriminate.
Qed.

(** C2, as amended.  The overdue helper compares instants, not calendar
    days: at instant [now] it returns, in order, exactly the tasks whose
    [dueDate] is present and strictly before [now] itself and whose status
    is neither [completed] nor [archived].  The tasks the specification's
    [isOverdue] selects (those [isTaskOverdue] returns [true] on) are among
    them, in the same order: they are what [isOverdue] keeps of the helper's
    result. *)
Theorem getOverdueTasks_spec (tz now : Z) (tasks : list Task) :
  getOverdueTasks now tasks = filter (overdue_at_instant now) tasks
  /\ filter (spec_isOverdue tz now) tasks
     = filter (spec_isOverdue tz now) (getOverdueTasks now tasks)
  /\ List.filter (utils.isTaskOverdue tz now) tasks
     = filter (spec_isOverdue tz now) tasks.
Proof.
  assert (H : getOverdueTasks now tasks = filter (overdue_at_instant now) tasks)
    by (apply filter_bool_Prop, overdueNow_spec).
  split; [exact H|]. split.
  - rewrite H, list_filter_filter. apply list_filter_iff.
    intros t. split; [|tauto].
    intros Ht. split; [exact Ht|]. by apply (spec_isOverdue_at_instant tz).
  - apply filter_bool_Prop, isTaskOverdue_spec.
Qed.

(** ** Sorting by priority (C7) *)

Section SortByPriority.

Import Arrays utils.

Lemma sort_insert_Permutation cmp x l : sort_insert cmp x l ≡ₚ x :: l.
Proof.
  induction l as [|y l IH]; simpl; [done|].
  case_bool_decide; [done|]. rewrite IH. apply Permutation_swap.
Qed.

Lemma stable_sort_Permutation cmp l : stable_sort cmp l ≡ₚ l.
Proof.
  induction l as [|x l IH]; simpl; [done|].
  rewrite sort_insert_Permutation. by rewrite IH.
Qed.

Lemma sort_insert_sorted x l :
  StronglySorted rank_ge l -> StronglySorted rank_ge (sort_insert byPriorityDesc x l).
Proof.
  induction 1 as [|y l Hl IH Hy]; simpl.
  - repeat constructor.
  - case_bool_decide as Hc; unfold byPriorityDesc in Hc.
    + constructor; [by constructor|].
      constructor; [unfold rank_ge; lia|].
      eapply Forall_impl; [exact Hy|]. unfold rank_ge. intros z Hz. lia.
    + constructor; [exact IH|].
      rewrite sort_insert_Permutation. constructor; [unfold rank_ge; lia | exact Hy].
Qed.

Lemma stable_sort_sorted l : StronglySorted rank_ge (stable_sort byPriorityDesc l).
Proof.
  induction l as [|x l IH]; simpl; [constructor|]. by apply sort_insert_sorted.
Qed.

(** Insertion moves [x] past tasks of other priorities only. *)
Lemma sort_insert_of_priority p x l :
  of_priority p (sort_insert byPriorityDesc x l) = of_priority p (x :: l).
Proof.
  unfold of_priority. induction l as [|y l IH]; simpl; [done|].
  case_bool_decide as Hc; [done|]. unfold byPriorityDesc in Hc.
  rewrite filter_cons, IH, !filter_cons.
  destruct (decide (priority y = p)) as [Hy|Hy];
    destruct (decide (priority x = p)) as [Hx|Hx]; try done.
  exfalso. rewrite Hx, Hy in Hc. lia.
Qed.

Lemma stable_sort_of_priority p l :
  of_priority p (stable_sort byPriorityDesc l) = of_priority p l.
Proof.
  induction l as [|x l IH]; simpl; [done|].
  rewrite sort_insert_of_priority. unfold of_priority in *.
  by rewrite !filter_cons, IH.
Qed.

Lemma of_priority_nil_below p x l :
  Forall (rank_ge x) l ->
  getPriorityValue (priority x) < getPriorityValue p ->
  of_priority p l = [].
Proof.
  unfold of_priority, rank_ge. induction 1 as [|y l Hy _ IH]; intros Hp; [done|].
  rewrite filter_cons, decide_False; [by apply IH|].
  intros Heq. rewrite Heq in Hy. lia.
Qed.

Lemma of_priority_cons p x l :
  of_priority p (x :: l)
  = if decide (priority x = p) then x :: of_priority p l else of_priority p l.
Proof. unfold of_priority. by rewrite filter_cons. Qed.

(** A list in rank-descending order is its four priority classes, one after
    the other. *)
Lemma sorted_by_classes l :
  StronglySorted rank_ge l ->
  l = of_priority urgent l ++ of_priority high l
      ++ of_priority medium l ++ of_priority low l.
Proof.
  induction 1 as [|x l Hl IH Hx]; [done|].
  rewrite !of_priority_cons.
  destruct (priority x) eqn:Hp; simpl;
    repeat (rewrite decide_False by discriminate);
    repeat (rewrite decide_True by reflexivity).
  - rewrite (of_priority_nil_below urgent x l), (of_priority_nil_below high x l),
      (of_priority_nil_below medium x l) in * by (rewrite ?Hp; done).
    simpl in *. by f_equal.
  - rewrite (of_priority_nil_below urgent x l), (of_priority_nil_below high x l)
      in * by (rewrite ?Hp; done).
    simpl in *. by f_equal.
  - rewrite (of_priority_nil_below urgent x l) in * by (rewrite ?Hp; done).
    simpl in *. by f_equal.
  - simpl. by f_equal.
Qed.

(** The sorted array does not depend on how the stable sort is carried
    out: it is the urgent tasks, then the high, medium and low ones, each
    class in its original order. *)
Lemma sortByPriority_list_classes l :
  sortByPriority_list l
  = of_priority urgent l ++ of_priority high l
    ++ of_priority medium l ++ of_priority low l.
Proof.
  unfold sortByPriority_list.
  rewrite (sorted_by_classes _ (stable_sort_sorted l)).
  by rewrite !stable_sort_of_priority.
Qed.

End SortByPriority.

(** C7.  Called on the array at [tasks], [sortByPriority] returns a new
    array and leaves every array of the heap, its input included, as it
    was.  The new array is a permutation of the input, in non-increasing
    [priorityRank] ([low] 1, [medium] 2, [high] 3, [urgent] 4), and for each
    priority the tasks of that priority stand in their original order. *)
Theorem sortByPriority_stable (h : Arrays.Heap) (tasks : nat) (l : list Task) :
  h !! tasks = Some l ->
  exists (sorted : nat) (out : list Task),
    utils.sortByPriority tasks h = Some (sorted, <[sorted := out]> h)
    /\ h !! sorted = None
    /\ (<[sorted := out]> h) !! tasks = Some l
    /\ out ≡ₚ l
    /\ StronglySorted rank_ge out
    /\ (forall p, of_priority p out = of_priority p l)
    /\ utils.getPriorityValue low = 1 /\ utils.getPriorityValue medium = 2
    /\ utils.getPriorityValue high = 3 /\ utils.getPriorityValue urgent = 4
    /\ out = utils.sortByPriority_list l.
Proof.
  intros Hl.
  pose proof (is_fresh (dom h)) as Hfresh.
  assert (Hnone : h !! fresh (dom h) = None) by (by apply not_elem_of_dom).
  exists (fresh (dom h)), (Arrays.stable_sort utils.byPriorityDesc l).
  split; [|split; [exact Hnone|split]].
  - unfold utils.sortByPriority, Arrays.spreadCopy, Arrays.Array_sort.
    rewrite Hl. simpl. rewrite lookup_insert_eq. by rewrite insert_insert_eq.
  - rewrite lookup_insert_ne; [exact Hl|]. intros E. rewrite E in Hnone. congruence.
  - split; [apply stable_sort_Permutation|].
    split; [apply stable_sort_sorted|].
    split; [intros p; apply stable_sort_of_priority|]. done.
Qed.

Lemma sortByPriority_stable_witness :
  let a := sampleTask "a" low pending Undefined Undefined 1 1 in
  let b := sampleTask "b" urgent pending Undefined Undefined 2 2 in
  let c := sampleTask "c" low pending Undefined Undefined 3 3 in
  let d := sampleTask "d" urgent pending Undefined Undefined 4 4 in
  let h : Arrays.Heap := {[ 0%nat := [a; b; c; d] ]} in
  exists sorted out,
    utils.sortByPriority 0 h = Some (sorted, <[sorted := out]> h)
    /\ (<[sorted := out]> h) !! 0%nat = Some [a; b; c; d]
    /\ of_priority urgent out = [b; d]
    /\ of_priority low out = [a; c].
Proof.
  intros a b c d h.
  destruct (sortByPriority_stable h 0 [a; b; c; d] eq_refl)
    as (sorted & out & Hrun & _ & Hin & _ & _ & Hstable & _).
  exists sorted, out.
  split; [exact Hrun|]. split; [exact Hin|].
  rewrite !Hstable. split; reflexivity.
Defined.

(** The same example, as lists: ties keep their order. *)
Example sortByPriority_list_example :
  let a := sampleTask "a" low pending Undefined Undefined 1 1 in
  let b := sampleTask "b" urgent pending Undefined Undefined 2 2 in
  let c := sampleTask "c" low pending Undefined Undefined 3 3 in
  let d := sampleTask "d" urgent pending Undefined Undefined 4 4 in
  utils.sortByPriority_list [a; b; c; d] = [b; d; a; c].
Proof. reflexivity. Qed.

(** ** Grouping (C8) *)

Section GroupTasks.

Import utils.

Variable key : Task -> string.

Lemma with_key_snoc k l t :
  with_key key k (l ++ [t])
  = if decide (key t = k) then with_key key k l ++ [t] else with_key key k l.
Proof.
  unfold with_key. rewrite filter_app, filter_cons, filter_nil.
  case_decide; [done|]. by rewrite app_nil_r.
Qed.

Lemma grouping_lookup_Some l grouped k g :
  grouping key l grouped -> grouped !! k = Some g ->
  g = with_key key k l /\ g <> [].
Proof.
  intros Hg Hk. rewrite Hg in Hk.
  destruct (with_key key k l) eqn:E; [discriminate|].
  injection Hk as <-. done.
Qed.

Lemma grouping_lookup_None l grouped k :
  grouping key l grouped -> grouped !! k = None -> with_key key k l = [].
Proof.
  intros Hg Hk. rewrite Hg in Hk.
  by destruct (with_key key k l).
Qed.

(** One round of the loop keeps the accumulator a grouping of the tasks
    seen, and its groups a permutation of them. *)
Lemma groupStep_grouping seen grouped t :
  inherited (key t) = false ->
  grouping key seen grouped -> all_groups grouped ≡ₚ seen ->
  exists grouped',
    groupStep key grouped t = Normal grouped'
    /\ grouping key (seen ++ [t]) grouped'
    /\ all_groups grouped' ≡ₚ seen ++ [t].
Proof.
  intros Hk Hg Hp. unfold groupStep.
  destruct (grouped !! key t) as [arr|] eqn:E.
  - destruct (grouping_lookup_Some _ _ _ _ Hg E) as [-> Hne].
    eexists; split; [reflexivity|]. split.
    + intros k. rewrite with_key_snoc.
      destruct (decide (key t = k)) as [<-|Hneq].
      * rewrite lookup_insert_eq. destruct (with_key key (key t) seen); done.
      * rewrite lookup_insert_ne by done. apply Hg.
    + unfold all_groups in *.
      rewrite <- insert_delete_eq.
      rewrite map_to_list_insert by apply lookup_delete_eq.
      rewrite <- (map_to_list_delete _ _ _ E) in Hp. simpl in *.
      etrans; [|apply Permutation_app_tail, Hp].
      rewrite <- !app_assoc.
      apply Permutation_app_head, Permutation_app_comm.
  - rewrite Hk. eexists; split; [reflexivity|]. split.
    + intros k. rewrite with_key_snoc.
      destruct (decide (key t = k)) as [<-|Hneq].
      * rewrite lookup_insert_eq.
        by rewrite (grouping_lookup_None _ _ _ Hg E).
      * rewrite lookup_insert_ne by done. apply Hg.
    + unfold all_groups in *.
      rewrite map_to_list_insert by done. simpl.
      etrans; [apply Permutation_cons, Hp; reflexivity|].
      apply Permutation_cons_append.
Qed.

Lemma forEach_group_grouping rest : forall seen grouped,
  Forall (fun t => inherited (key t) = false) rest ->
  grouping key seen grouped -> all_groups grouped ≡ₚ seen ->
  exists grouped',
    forEach_group key rest grouped = Normal grouped'
    /\ grouping key (seen ++ rest) grouped'
    /\ all_groups grouped' ≡ₚ seen ++ rest.
Proof.
  induction rest as [|t rest IH]; intros seen grouped Hkeys Hg Hp.
  - exists grouped. by rewrite app_nil_r.
  - apply Forall_cons_1 in Hkeys as [Hk Hkeys].
    destruct (groupStep_grouping seen grouped t Hk Hg Hp)
      as (grouped1 & Hstep & Hg1 & Hp1).
    destruct (IH (seen ++ [t]) grouped1 Hkeys Hg1 Hp1)
      as (grouped' & Hrun & Hg' & Hp').
    exists grouped'. simpl. rewrite Hstep.
    rewrite <- app_assoc in Hg', Hp'. done.
Qed.

(** On keys that name no inherited member, [groupTasks_by] completes with
    the grouping of its input. *)
Lemma groupTasks_by_grouping tasks :
  Forall (fun t => inherited (key t) = false) tasks ->
  exists grouped,
    groupTasks_by key tasks = Normal grouped
    /\ grouping key tasks grouped
    /\ all_groups grouped ≡ₚ tasks.
Proof.
  intros Hkeys. apply (forEach_group_grouping tasks [] ∅ Hkeys).
  - intros k. by rewrite lookup_empty.
  - unfold all_groups. by rewrite map_to_list_empty.
Qed.

Lemma with_key_nil_iff k l : with_key key k l = [] <-> k ∉ map key l.
Proof.
  unfold with_key. split.
  - intros E Hin. apply list_elem_of_fmap in Hin as (t & -> & Ht).
    assert (t ∈ filter (fun t0 => key t0 = key t) l)
      by (by apply list_elem_of_filter).
    rewrite E in H. by apply not_elem_of_nil in H.
  - intros Hnot. destruct (filter _ l) as [|t g] eqn:E; [done|exfalso].
    assert (Ht : t ∈ filter (fun t0 => key t0 = k) l) by (rewrite E; left).
    apply list_elem_of_filter in Ht as [<- Ht].
    apply Hnot, list_elem_of_fmap. by exists t.
Qed.

(** The keys of a grouping are the keys that occur. *)
Lemma grouping_dom l grouped :
  grouping key l grouped -> dom grouped = list_to_set (map key l).
Proof.
  intros Hg. apply set_eq. intros k.
  rewrite elem_of_dom, elem_of_list_to_set, Hg.
  destruct (with_key key k l) as [|t g] eqn:E.
  - apply with_key_nil_iff in E. split; [by intros [? ?]|done].
  - split; [|by eexists]. intros _.
    destruct (decide (k ∈ map key l)) as [|Hnot]; [done|].
    apply with_key_nil_iff in Hnot. congruence.
Qed.

(** Each task is in the group of its key, and in no other group. *)
Lemma grouping_exactly_one l grouped t :
  grouping key l grouped -> t ∈ l ->
  (exists g, grouped !! key t = Some g /\ t ∈ g)
  /\ (forall k g, grouped !! k = Some g -> t ∈ g -> k = key t).
Proof.
  intros Hg Ht. split.
  - assert (Hin : t ∈ with_key key (key t) l) by (by apply list_elem_of_filter).
    rewrite Hg. destruct (with_key key (key t) l) as [|t0 g] eqn:E.
    + by apply not_elem_of_nil in Hin.
    + by eexists.
  - intros k g Hk Hin.
    destruct (grouping_lookup_Some _ _ _ _ Hg Hk) as [-> _].
    by apply list_elem_of_filter in Hin as [<- _].
Qed.

End GroupTasks.

Lemma String_status_inj a b :
  utils.String_status a = utils.String_status b -> a = b.
Proof. destruct a, b; simpl; congruence. Qed.

Lemma String_priority_inj a b :
  utils.String_priority a = utils.String_priority b -> a = b.
Proof. destruct a, b; simpl; congruence. Qed.

Lemma groupable_not_inherited dateText k t :
  groupable k -> utils.inherited (utils.String_field dateText k t) = false.
Proof.
  intros [-> | ->]; simpl.
  - by destruct (status t).
  - by destruct (priority t).
Qed.

(** C8.  For a groupable field (status or priority), [groupTasks]
    completes, and its result partitions the input: the keys present are
    exactly the values of the field that occur among the tasks; each group
    is non-empty and holds the tasks with that value in their original
    relative order; every task is in the group of its value and in no
    other; the groups, one after the other, are a permutation of the
    input; and two tasks have the same key only when they have the same
    value of the field. *)
Theorem groupTasks_partition (dateText : Date -> string) (tasks : list Task)
    (k : utils.TaskKey) :
  groupable k ->
  exists grouped : gmap string (list Task),
    utils.groupTasks dateText tasks k = utils.Normal grouped
    /\ dom grouped = list_to_set (map (utils.String_field dateText k) tasks)
    /\ (forall key g, grouped !! key = Some g ->
          g = with_key (utils.String_field dateText k) key tasks
          /\ g <> [] /\ sublist g tasks)
    /\ (forall t, t ∈ tasks ->
          (exists g, grouped !! utils.String_field dateText k t = Some g /\ t ∈ g)
          /\ (forall key g, grouped !! key = Some g -> t ∈ g ->
                key = utils.String_field dateText k t))
    /\ all_groups grouped ≡ₚ tasks
    /\ (forall a b,
          utils.String_field dateText k a = utils.String_field dateText k b ->
          (k = utils.k_status -> status a = status b)
          /\ (k = utils.k_priority -> priority a = priority b)).
Proof.
  intros Hk.
  destruct (groupTasks_by_grouping (utils.String_field dateText k) tasks)
    as (grouped & Hrun & Hg & Hp).
  { apply list.Forall_forall. intros t _. by apply groupable_not_inherited. }
  exists grouped. split; [exact Hrun|].
  split; [by apply grouping_dom|].
  split; [|split; [|split; [exact Hp|]]].
  - intros key g Hkey.
    destruct (grouping_lookup_Some _ _ _ _ _ Hg Hkey) as [-> Hne].
    split; [done|]. split; [done|]. apply sublist_filter.
  - intros t Ht. by apply grouping_exactly_one with (l := tasks).
  - intros a b Hab. split; intros ->; simpl in Hab.
    + by apply String_status_inj.
    + by apply String_priority_inj.
Qed.

Lemma groupTasks_partition_witness :
  let a := sampleTask "a" low pending Undefined Undefined 1 1 in
  let b := sampleTask "b" urgent completed Undefined (Val (Instant 2)) 2 2 in
  let c := sampleTask "c" high pending Undefined Undefined 3 3 in
  exists grouped,
    utils.groupTasks stamp_date [a; b; c] utils.k_status = utils.Normal grouped
    /\ grouped !! "pending" = Some [a; c]
    /\ grouped !! "completed" = Some [b]
    /\ grouped !! "archived" = None.
Proof.
  intros a b c.
  destruct (groupTasks_partition stamp_date [a; b; c] utils.k_status
              (or_introl eq_refl))
    as (grouped & Hrun & _).
  exists grouped. split; [exact Hrun|].
  injection Hrun as <-. repeat split; reflexivity.
Defined.

(** Outside the groupable fields the loop can throw: a task whose title is
    the name of a member every object inherits has a truthy
    [grouped[key]] that is no array. *)
Example groupTasks_by_title_throws :
  utils.groupTasks stamp_date
    [ mkTask "1" "constructor" None Undefined low pending
             (Instant 1) (Instant 1) Undefined None None ] utils.k_title
  = utils.Throw "TypeError: grouped[key].push is not a function".
Proof. reflexivity. Qed.

(** ** The persisted store (C9, C6) *)

Lemma stamp_parse_toString ms : stamp_parse (stamp_toString ms) = Instant ms.
Proof.
  unfold stamp_parse, stamp_toString.
  rewrite NilEmpty.isi. by rewrite DecimalZ.of_to.
Qed.

Lemma stamp_toString_nonempty ms : stamp_toString ms <> "".
Proof. discriminate. Qed.

Section PersistedStore.

Import utils useLocalStorage.

Variable toISOString : Z -> string.
Variable parseDate : string -> Date.

(** What ECMAScript promises of the platform: the ISO text of a time value
    is not empty, and [new Date] reads it back to the same time value. *)
Hypothesis toISOString_nonempty :
  forall ms, valid_time ms -> toISOString ms <> "".
Hypothesis parseDate_toISOString :
  forall ms, valid_time ms -> parseDate (toISOString ms) = Instant ms.


(** C9.  When the browser refuses the write, [setValue] still completes
    normally: the error is caught and logged with [console.warn], the
    storage is as it was, and the in-memory collection is the new value:
    the collection given, or, when [setValue] is given an updater (the
    only form the page uses), the updater applied to the current
    collection. *)
Theorem setValue_write_failure (b : Browser) (key : string) (w : World) :
  hasWindow b = true ->
  (forall tasks : list Task,
     accepts b key (JSON_stringify toISOString tasks) = false ->
     setValue toISOString b key (inl tasks) w
     = (Normal tt,
        {| storedValue := tasks;
           localStorage := localStorage w;
           console := console w
                      ++ [("Error writing to localStorage (" +:+ key +:+ "):",
                           "QuotaExceededError")] |}))
  /\ (forall updater : list Task -> list Task,
        accepts b key (JSON_stringify toISOString (updater (storedValue w)))
        = false ->
        setValue toISOString b key (inr updater) w
        = (Normal tt,
           {| storedValue := updater (storedValue w);
              localStorage := localStorage w;
              console := console w
                         ++ [("Error writing to localStorage (" +:+ key +:+ "):",
                              "QuotaExceededError")] |})).
Proof.
  intros Hwin. split.
  - intros tasks Hfull.
    unfold setValue, try_catch, bind, readState, setStoredValue, setItem,
      console_warn, ret, valueToStore.
    simpl. rewrite Hwin. simpl. by rewrite Hfull.
  - intros updater Hfull.
    unfold setValue, try_catch, bind, readState, setStoredValue, setItem,
      console_warn, ret, valueToStore.
    simpl. rewrite Hwin. simpl. by rewrite Hfull.
Qed.

(** A successful [setValue] leaves the text of the collection in storage. *)
Lemma setValue_write_success b key value w :
  hasWindow b = true ->
  accepts b key
    (JSON_stringify toISOString (valueToStore value (storedValue w))) = true ->
  setValue toISOString b key value w
  = (Normal tt,
     {| storedValue := valueToStore value (storedValue w);
        localStorage :=
          <[key := JSON_stringify toISOString (valueToStore value (storedValue w))]>
            (localStorage w);
        console := console w |}).
Proof.
  intros Hwin Hok.
  unfold setValue, try_catch, bind, readState, setStoredValue, setItem,
    console_warn, ret, valueToStore in *.
  simpl. rewrite Hwin. destruct value as [v|f]; simpl in *; by rewrite Hok.
Qed.

Lemma new_Date_toJSON d :
  valid_date d -> new_Date parseDate (Date_toJSON toISOString d) = d.
Proof. destruct d as [ms|]; simpl; [apply parseDate_toISOString | done]. Qed.

Lemma dateOrNull_toJSON x :
  valid_nullable x ->
  dateOrNull parseDate (Nullable_toJSON toISOString x) = absent_as_null x.
Proof.
  destruct x as [| |[ms|]]; simpl; try done.
  intros Hms. unfold dateOrNull. simpl.
  rewrite bool_decide_eq_false_2 by (by apply toISOString_nonempty).
  simpl. by rewrite parseDate_toISOString.
Qed.

Lemma reconstruct_toJSON t :
  valid_task t -> reconstruct parseDate (Task_toJSON toISOString t) = nullified t.
Proof.
  intros (Hdue & Hc & Hu & Hdone). unfold reconstruct, nullified. simpl.
  by rewrite !dateOrNull_toJSON, !new_Date_toJSON.
Qed.

Lemma same_task_nullified t : same_task (nullified t) t.
Proof.
  unfold same_task, nullified. simpl.
  by destruct (dueDate t), (completedAt t).
Qed.

(** A task that went through [nullified] unchanged had no absent
    [dueDate] or [completedAt]. *)
Lemma nullified_fixed t :
  nullified t = t <-> dueDate t <> Undefined /\ completedAt t <> Undefined.
Proof.
  destruct t as [i ti de due p s c u done tg li]. unfold nullified. simpl.
  split.
  - intros H. injection H as Hdue Hdone.
    destruct due, done; simpl in *; done.
  - intros [Hdue Hdone]. destruct due, done; simpl; done.
Qed.

(** C6.  Saving a valid collection and loading it again yields the same
    tasks in the same order: every task comes back with the same id,
    title, description, priority, status, tags and listId, and with
    [createdAt], [updatedAt] and a present [dueDate] or [completedAt] as
    Date objects of exactly the instants saved.  A [dueDate] or
    [completedAt] that was absent comes back as [null], so the loaded
    collection is the saved one exactly when no task had an absent
    [dueDate] or [completedAt]. *)
Theorem load_after_save (b : Browser) (key : string)
    (initialValue tasks : list Task) (w : World) :
  hasWindow b = true ->
  accepts b key (JSON_stringify toISOString tasks) = true ->
  Forall valid_task tasks ->
  let saved := snd (setValue toISOString b key (inl tasks) w) in
  exists loaded : list Task,
    load parseDate b key initialValue saved = (Normal loaded, saved)
    /\ loaded = map nullified tasks
    /\ Forall2 same_task loaded tasks
    /\ map createdAt loaded = map createdAt tasks
    /\ map updatedAt loaded = map updatedAt tasks
    /\ (loaded = tasks
        <-> Forall (fun t => dueDate t <> Undefined /\ completedAt t <> Undefined)
                   tasks).
Proof.
  intros Hwin Hok Hvalid saved. subst saved.
  rewrite (setValue_write_success b key (inl tasks) w Hwin Hok). simpl.
  exists (map nullified tasks). split; [|split; [done|split; [|split; [|split]]]].
  - unfold load, try_catch, bind, getItem, lift, ret. rewrite Hwin. simpl.
    rewrite lookup_insert_eq. simpl. do 2 f_equal.
    rewrite map_map. apply map_ext_Forall.
    eapply Forall_impl; [exact Hvalid|]. intros t Ht. by apply reconstruct_toJSON.
  - apply Forall2_fmap_l, Forall_Forall2_diag, Forall_true. apply same_task_nullified.
  - by rewrite map_map.
  - by rewrite map_map.
  - clear Hok Hvalid. induction tasks as [|t l IH]; simpl.
    + split; [constructor | done].
    + split.
      * intros H. injection H as Ht Hl. constructor.
        -- by apply nullified_fixed.
        -- by apply IH.
      * intros H. apply Forall_cons in H as [Ht Hl].
        f_equal; [by apply nullified_fixed | by apply IH].
Qed.

End PersistedStore.

Lemma setValue_write_failure_witness :
  let t := sampleTask "1" low pending Undefined Undefined 1 1 in
  let u := sampleTask "2" high pending Undefined Undefined 2 2 in
  let w := useLocalStorage.mkWorld [t; u] ∅ [] in
  let warning := [("Error writing to localStorage (nimbustodo_tasks):",
                   "QuotaExceededError")] in
  useLocalStorage.setValue stamp_toString browser_full "nimbustodo_tasks"
    (inl [u]) w
  = (utils.Normal tt, useLocalStorage.mkWorld [u] ∅ warning)
  /\ useLocalStorage.setValue stamp_toString browser_full "nimbustodo_tasks"
       (inr (Home.deletion "1")) w
     = (utils.Normal tt, useLocalStorage.mkWorld [u] ∅ warning).
Proof.
  intros t u w warning.
  destruct (setValue_write_failure stamp_toString browser_full
              "nimbustodo_tasks" w eq_refl) as [Hvalue Hupdater].
  split.
  - exact (Hvalue [u] eq_refl).
  - exact (Hupdater (Home.deletion "1") eq_refl).
Defined.

Lemma sample_valid_task i p s due done created updated :
  useLocalStorage.valid_nullable due -> useLocalStorage.valid_nullable done ->
  useLocalStorage.valid_time created -> useLocalStorage.valid_time updated ->
  useLocalStorage.valid_task (sampleTask i p s due done created updated).
Proof. intros Hdue Hdone Hc Hu. unfold useLocalStorage.valid_task. simpl. tauto. Qed.

Lemma load_after_save_witness :
  let a := sampleTask "a" low pending (Val (Instant 1700000000123)) Null
                      1600000000000 1600000000001 in
  let b := sampleTask "b" high completed Undefined (Val (Instant 1650000000999))
                      1600000000000 1650000000999 in
  let saved :=
    snd (useLocalStorage.setValue stamp_toString browser_ok "nimbustodo_tasks"
           (inl [a; b]) emptyWorld) in
  exists loaded,
    useLocalStorage.load stamp_parse browser_ok "nimbustodo_tasks" [] saved
    = (utils.Normal loaded, saved)
    /\ Forall2 useLocalStorage.same_task loaded [a; b]
    /\ map createdAt loaded = [Instant 1600000000000; Instant 1600000000000]
    /\ map dueDate loaded = [Val (Instant 1700000000123); Null].
Proof.
  intros a b saved.
  assert (Hvalid : Forall useLocalStorage.valid_task [a; b]).
  { constructor; [|constructor; [|constructor]];
      apply sample_valid_task; simpl; unfold useLocalStorage.valid_time;
      solve [lia | exact I]. }
  destruct (load_after_save stamp_toString stamp_parse
              (fun ms _ => stamp_toString_nonempty ms)
              (fun ms _ => stamp_parse_toString ms)
              browser_ok "nimbustodo_tasks" [] [a; b] emptyWorld
              eq_refl eq_refl Hvalid)
    as (loaded & Hload & Heq & Hsame & Hcreated & _).
  exists loaded. split; [exact Hload|]. split; [exact Hsame|].
  split; [exact Hcreated|]. rewrite Heq. reflexivity.
Defined.

(** C6, the literal identity fails: a task as [addTask] builds it has no
    [completedAt] and no [dueDate] property; saved and loaded, it comes
    back with both set to [null], so the loaded collection is not the one
    saved. *)
Lemma load_after_save_not_identity :
  let tasks := (addTask 1600000000000 "k3x9" (sampleInput None) []).2 in
  let saved :=
    snd (useLocalStorage.setValue stamp_toString browser_ok "nimbustodo_tasks"
           (inl tasks) emptyWorld) in
  Forall useLocalStorage.valid_task tasks
  /\ map completedAt tasks = [Undefined]
  /\ exists loaded,
       useLocalStorage.load stamp_parse browser_ok "nimbustodo_tasks" [] saved
       = (utils.Normal loaded, saved)
       /\ map completedAt loaded = [Null]
       /\ map dueDate loaded = [Null]
       /\ loaded <> tasks.
Proof.
  intros tasks saved. split; [|split; [reflexivity|]].
  - constructor; [|constructor].
    unfold useLocalStorage.valid_task, useLocalStorage.valid_nullable,
      useLocalStorage.valid_date, useLocalStorage.valid_time.
    simpl. repeat split; lia.
  - eexists. split; [vm_compute; reflexivity|].
    split; [reflexivity|]. split; [reflexivity|]. discriminate.
Qed.

(** * Further properties of the code *)

(** ** The calendar *)

Lemma all_from_spec fuel : forall i f,
  all_from fuel i f = true -> forall j, i <= j < i + Z.of_nat fuel -> f j = true.
Proof.
  induction fuel as [|k IH]; intros i f H j Hj; [lia|].
  simpl in H. apply andb_true_iff in H as [H1 H2].
  destruct (decide (j = i)) as [->|]; [done|].
  apply (IH (i + 1) f H2). lia.
Qed.

Lemma era_checked : all_from (Z.to_nat 146097) 0 era_ok = true.
Proof. vm_compute. reflexivity. Qed.

Lemma era_ok_all doe : 0 <= doe < 146097 -> era_ok doe = true.
Proof.
  intros Hdoe. apply (all_from_spec (Z.to_nat 146097) 0 era_ok era_checked).
  rewrite Z2Nat.id; lia.
Qed.

(** A day number is recovered from its year, month and day. *)
Lemma days_from_civil_from_days z : days_from_civil (civil_from_days z) = z.
Proof.
  unfold civil_from_days.
  set (z' := z + 719468). set (era := z' / 146097).
  set (doe := z' - era * 146097).
  assert (Hdoe : 0 <= doe < 146097).
  { unfold doe, era. pose proof (Z.div_mod z' 146097 ltac:(lia)).
    pose proof (Z.mod_pos_bound z' 146097 ltac:(lia)). lia. }
  pose proof (era_ok_all doe Hdoe) as Hok.
  unfold era_ok in Hok.
  set (yoe := (doe - doe / 1460 + doe / 36524 - doe / 146096) / 365) in *.
  set (doy := doe - (365 * yoe + yoe / 4 - yoe / 100)) in *.
  set (mp := (5 * doy + 2) / 153) in *.
  set (d := doy - (153 * mp + 2) / 5 + 1) in *.
  rewrite !andb_true_iff in Hok.
  destruct Hok as ((((Hy0 & Hy1) & Hm0) & Hm1) & Hdoe').
  apply Z.leb_le in Hy0, Hm0. apply Z.ltb_lt in Hy1, Hm1.
  apply Z.eqb_eq in Hdoe'.
  unfold days_from_civil.
  assert (Hera : (yoe + era * 400) / 400 = era).
  { rewrite Z.div_add by lia. rewrite Z.div_small by lia. lia. }
  repeat case_bool_decide; try lia.
  all: replace (yoe + era * 400 + 1 - 1) with (yoe + era * 400) by lia;
       replace (yoe + era * 400 + 0 - 0) with (yoe + era * 400) by lia;
       rewrite ?Hera.
  all: try (replace (mp + 3 - 1 + 1 - 3) with mp by lia);
       try (replace (mp - 9 - 1 + 1 + 9) with mp by lia).
  all: replace (yoe + era * 400 - era * 400) with yoe by lia;
       unfold doe in *; lia.
Qed.

Lemma civil_from_days_inj a b : civil_from_days a = civil_from_days b -> a = b.
Proof.
  intros H. rewrite <- (days_from_civil_from_days a), H.
  apply days_from_civil_from_days.
Qed.

Example civil_from_days_epoch : civil_from_days 0 = (1970, 0, 1).
Proof. reflexivity. Qed.

Example civil_from_days_leap : civil_from_days 19782 = (2024, 1, 29).
Proof. reflexivity. Qed.

(** Two valid dates have the same year, month and day exactly when they
    fall on the same local day. *)
Lemma sameYMD_localDay tz a b :
  sameYMD tz (Instant a) (Instant b) = true <-> localDay tz a = localDay tz b.
Proof.
  unfold sameYMD, getDate, getMonth, getFullYear, num_eq.
  rewrite !andb_true_iff, !bool_decide_eq_true. split.
  - intros [[Hd Hm] Hy]. apply civil_from_days_inj.
    destruct (civil_from_days (localDay tz a)) as [[y1 m1] d1],
             (civil_from_days (localDay tz b)) as [[y2 m2] d2].
    cbn [fst snd] in *. congruence.
  - by intros ->.
Qed.

Lemma startOfDay_localDay tz t : startOfDay tz t = localDay tz t * msPerDay - tz.
Proof.
  unfold startOfDay, localDay, msPerDay.
  pose proof (Z.div_mod (t + tz) 86400000 ltac:(lia)). lia.
Qed.

Lemma sameYMD_startOfDay tz a b :
  sameYMD tz (Instant a) (Instant b) = true <-> startOfDay tz a = startOfDay tz b.
Proof.
  rewrite sameYMD_localDay, !startOfDay_localDay. unfold msPerDay. lia.
Qed.

Lemma localDay_next tz t : localDay tz (t + msPerDay) = localDay tz t + 1.
Proof.
  unfold localDay, msPerDay.
  replace (t + 86400000 + tz) with (t + tz + 1 * 86400000) by lia.
  by rewrite Z.div_add by lia.
Qed.

(** ** More on the collection manager *)

Lemma deleteTask_as_filter id0 prev :
  deleteTask id0 prev = filter (fun t => id t <> id0) prev.
Proof.
  apply filter_bool_Prop. intros t.
  rewrite negb_true_iff, bool_decide_eq_false. tauto.
Qed.

Lemma deleteTask_none_left id0 prev :
  Forall (fun t => id t <> id0) (deleteTask id0 prev).
Proof.
  rewrite deleteTask_as_filter. apply list.Forall_forall. intros t Ht.
  by apply list_elem_of_filter in Ht as [? _].
Qed.

Lemma deleteTask_absent id0 prev :
  Forall (fun t => id t <> id0) prev -> deleteTask id0 prev = prev.
Proof. rewrite deleteTask_as_filter. apply filter_all_iff. Qed.

(** X1.  [deleteTask id] keeps, in order, exactly the tasks whose id is not
    [id]: no task with that id is left (also when several had it), the
    collection is unchanged exactly when no task had that id, deleting twice
    is deleting once, and deletions of two ids commute. *)
Theorem deleteTask_spec (id0 : string) (prev : list Task) :
  deleteTask id0 prev = filter (fun t => id t <> id0) prev
  /\ Forall (fun t => id t <> id0) (deleteTask id0 prev)
  /\ (deleteTask id0 prev = prev <-> Forall (fun t => id t <> id0) prev)
  /\ deleteTask id0 (deleteTask id0 prev) = deleteTask id0 prev
  /\ (forall id1, deleteTask id0 (deleteTask id1 prev)
                  = deleteTask id1 (deleteTask id0 prev)).
Proof.
  pose proof deleteTask_as_filter as H.
  split; [apply H|]. split; [|split; [|split]].
  - apply deleteTask_none_left.
  - rewrite H. apply filter_all_iff.
  - rewrite !H. rewrite list_filter_filter. apply list_filter_iff. tauto.
  - intros id1. rewrite !H, !list_filter_filter. apply list_filter_iff. tauto.
Qed.

(** X2.  [updateTaskStatus id status] at instant [now] gives every task
    with that id the new status, [completedAt = now] when the status is
    [completed] and [null] otherwise, and [updatedAt = now]; it keeps all
    their other properties, their id included; it leaves the other tasks
    as they were; and a later status change of the same id overrides an
    earlier one completely. *)
Theorem updateTaskStatus_spec (now : Z) (id0 : string) (st : TaskStatus)
    (prev : list Task) :
  Forall2 (fun t t' =>
             (id t <> id0 -> t' = t)
             /\ (id t = id0 ->
                 status t' = st
                 /\ completedAt t'
                    = (if bool_decide (st = completed) then Val (Instant now)
                       else Null)
                 /\ updatedAt t' = Instant now
                 /\ id t' = id t /\ title t' = title t
                 /\ description t' = description t /\ dueDate t' = dueDate t
                 /\ priority t' = priority t /\ createdAt t' = createdAt t
                 /\ tags t' = tags t /\ listId t' = listId t))
          prev (updateTaskStatus now id0 st prev)
  /\ map id (updateTaskStatus now id0 st prev) = map id prev
  /\ (forall now' st',
        updateTaskStatus now' id0 st' (updateTaskStatus now id0 st prev)
        = updateTaskStatus now' id0 st' prev).
Proof.
  split; [|split].
  - apply (map_where_Forall2 _ (fun t => bool_decide (id t = id0))).
    + intros t Ht. apply bool_decide_eq_true in Ht. split; [done|].
      intros _. by repeat split.
    + intros t Ht. apply bool_decide_eq_false in Ht. split; [done|done].
  - unfold updateTaskStatus. rewrite map_map. apply map_ext.
    intros t. by case_bool_decide.
  - intros now' st'. unfold updateTaskStatus. rewrite map_map. apply map_ext.
    intros t. destruct (decide (id t = id0)) as [Ht|Ht].
    + rewrite (bool_decide_eq_true_2 _ Ht). simpl.
      rewrite (bool_decide_eq_true_2 _ Ht). reflexivity.
    + by rewrite !(bool_decide_eq_false_2 _ Ht).
Qed.

(** Scenario: a pending task completed at 7 and reopened at 9. *)
Example updateTaskStatus_reopen :
  let t := sampleTask "a" low pending Undefined Undefined 1 1 in
  updateTaskStatus 7 "a" completed [t]
  = [sampleTask "a" low completed Undefined (Val (Instant 7)) 1 7]
  /\ updateTaskStatus 9 "a" pending (updateTaskStatus 7 "a" completed [t])
     = [sampleTask "a" low pending Undefined Null 1 9].
Proof. split; reflexivity. Qed.

Lemma archive_fields t :
  id (archive t) = id t /\ title (archive t) = title t
  /\ description (archive t) = description t /\ dueDate (archive t) = dueDate t
  /\ priority (archive t) = priority t /\ createdAt (archive t) = createdAt t
  /\ updatedAt (archive t) = updatedAt t
  /\ completedAt (archive t) = completedAt t
  /\ tags (archive t) = tags t /\ listId (archive t) = listId t.
Proof. by repeat split. Qed.

(** X3.  After [clearCompleted] no task is [completed]: each completed task
    has become [archived] with every other property untouched, each other
    task is as it was; clearing again changes nothing; and the default
    ['all'] view of the result is exactly the pending tasks. *)
Theorem clearCompleted_spec (prev : list Task) :
  Forall (fun t => status t <> completed) (clearCompleted prev)
  /\ Forall2 (fun t t' =>
                (status t <> completed -> t' = t)
                /\ (status t = completed ->
                    status t' = archived /\ id t' = id t
                    /\ title t' = title t /\ description t' = description t
                    /\ dueDate t' = dueDate t /\ priority t' = priority t
                    /\ createdAt t' = createdAt t /\ updatedAt t' = updatedAt t
                    /\ completedAt t' = completedAt t
                    /\ tags t' = tags t /\ listId t' = listId t))
             prev (clearCompleted prev)
  /\ clearCompleted (clearCompleted prev) = clearCompleted prev
  /\ getTasksByStatus (clearCompleted prev) all
     = getTasksByStatus prev (just pending).
Proof.
  assert (Hnone : Forall (fun t => status t <> completed) (clearCompleted prev)).
  { unfold clearCompleted. apply list.Forall_forall. intros t' Ht'.
    apply list_elem_of_fmap in Ht' as (t & -> & _).
    case_bool_decide; [discriminate | done]. }
  split; [exact Hnone|]. split; [|split].
  - apply (map_where_Forall2 _ (fun t => bool_decide (status t = completed))).
    + intros t Ht. apply bool_decide_eq_true in Ht. split; [done|].
      intros _. by repeat split.
    + intros t Ht. apply bool_decide_eq_false in Ht. split; [done|done].
  - by apply clearCompleted_id.
  - unfold clearCompleted. simpl. induction prev as [|t prev IH]; [done|].
    simpl. rewrite <- IH; [|by apply Forall_cons_1 in Hnone as [_ ?]].
    destruct (status t) eqn:E; simpl; rewrite ?E; done.
Qed.

(** X4.  Deleting the task [addTask] has just returned gives back the
    collection as it was, provided no task already had the generated id. *)
Theorem addTask_deleteTask (now : Z) (rnd : string) (input : TaskInput)
    (prev : list Task) :
  Forall (fun t => id t <> freshId now rnd) prev ->
  let '(t, next) := addTask now rnd input prev in
  head next = Some t /\ deleteTask (id t) next = prev.
Proof.
  intros Hfresh. simpl. split; [done|].
  rewrite bool_decide_eq_true_2 by done. simpl.
  apply deleteTask_absent. exact Hfresh.
Qed.

Lemma addTask_deleteTask_witness :
  let old := sampleTask "task-1-abc" low pending Undefined Undefined 1 1 in
  deleteTask (freshId 2 "xyz") (snd (addTask 2 "xyz" (sampleInput None) [old]))
  = [old].
Proof.
  intros old.
  assert (Hfresh : Forall (fun t => id t <> freshId 2 "xyz") [old]).
  { constructor; [|constructor]. vm_compute. discriminate. }
  exact (proj2 (addTask_deleteTask 2 "xyz" (sampleInput None) [old] Hfresh)).
Defined.

(** X5.  The hook's [getDueToday] returns, in order, the tasks that
    [isTaskDueToday] accepts and that are not [completed]; archived tasks
    due today are among them. *)
Theorem getDueToday_spec (tz now : Z) (tasks : list Task) :
  getDueToday tz now tasks
  = List.filter (fun t => utils.isTaskDueToday tz now t
                          && negb (bool_decide (status t = completed))) tasks.
Proof.
  unfold getDueToday. apply filter_ext. intros t.
  unfold dueTodayNow, utils.isTaskDueToday.
  destruct (dueDate t) as [| |[d|]]; try done. f_equal.
  unfold copyDate, newDate, setHours0, sameTime.
  apply Bool.eq_iff_eq_true.
  rewrite bool_decide_eq_true, sameYMD_startOfDay. done.
Qed.

Example getDueToday_keeps_archived :
  let t := sampleTask "1" low archived (Val (Instant 43200000)) Null 0 0 in
  getDueToday 0 50000000 [t] = [t].
Proof. reflexivity. Qed.

(** ** More on the derived views *)

Section StableSort.

Import Arrays.

Variable cmp : Task -> Task -> Z.
Variable le : Task -> Task -> Prop.
Variable V : Task -> Prop.

Hypothesis cmp_le : forall x y, V x -> V y -> cmp x y <= 0 -> le x y.
Hypothesis cmp_gt : forall x y, V x -> V y -> ~ cmp x y <= 0 -> le y x.
Hypothesis le_trans : forall x y z, le x y -> le y z -> le x z.

Lemma sort_insert_Forall (P : Task -> Prop) x l :
  P x -> Forall P l -> Forall P (sort_insert cmp x l).
Proof. intros Hx Hl. rewrite sort_insert_Permutation. by constructor. Qed.

Lemma stable_sort_Forall (P : Task -> Prop) l :
  Forall P l -> Forall P (stable_sort cmp l).
Proof. intros Hl. by rewrite stable_sort_Permutation. Qed.

Lemma sort_insert_sorted_by x l :
  V x -> Forall V l ->
  StronglySorted le l -> StronglySorted le (sort_insert cmp x l).
Proof.
  intros Hx Hl Hs. induction Hs as [|y l Hs IH Hy]; simpl.
  - repeat constructor.
  - apply Forall_cons_1 in Hl as [Hvy Hl]. case_bool_decide as Hc.
    + constructor; [by constructor|].
      constructor; [by apply cmp_le|].
      eapply Forall_impl; [exact Hy|]. intros z Hz.
      eapply le_trans; [|exact Hz]. by apply cmp_le.
    + constructor; [by apply IH|].
      apply sort_insert_Forall; [by apply cmp_gt | exact Hy].
Qed.

Lemma stable_sort_sorted_by l :
  Forall V l -> StronglySorted le (stable_sort cmp l).
Proof.
  induction 1 as [|x l Hx Hl IH]; simpl; [constructor|].
  apply sort_insert_sorted_by; [done | by apply stable_sort_Forall | done].
Qed.

(** A class of tasks that the comparator never puts strictly out of
    order keeps its order. *)
Lemma sort_insert_class (P : Task -> Prop) `{!forall t, Decision (P t)} x l :
  (forall a b, P a -> P b -> cmp a b <= 0) ->
  filter P (sort_insert cmp x l) = filter P (x :: l).
Proof.
  intros Hclass. induction l as [|y l IH]; simpl; [done|].
  case_bool_decide as Hc; [done|].
  rewrite filter_cons, IH, !filter_cons.
  destruct (decide (P y)) as [Hy|Hy]; destruct (decide (P x)) as [Hx|Hx];
    try done.
  exfalso. apply Hc. by apply Hclass.
Qed.

Lemma stable_sort_class (P : Task -> Prop) `{!forall t, Decision (P t)} l :
  (forall a b, P a -> P b -> cmp a b <= 0) ->
  filter P (stable_sort cmp l) = filter P l.
Proof.
  intros Hclass. induction l as [|x l IH]; simpl; [done|].
  rewrite sort_insert_class by done. by rewrite !filter_cons, IH.
Qed.

End StableSort.

Lemma byDueDateAsc_valid a b :
  valid_due a -> valid_due b ->
  (utils.byDueDateAsc a b <= 0 <-> due_le a b).
Proof.
  unfold valid_due, utils.byDueDateAsc, utils.dueTime, due_le, dueKey.
  destruct (dueDate a) as [| |[x|]], (dueDate b) as [| |[y|]];
    simpl; intros Ha Hb; try done; lia.
Qed.

Lemma due_le_trans a b c : due_le a b -> due_le b c -> due_le a c.
Proof.
  unfold due_le. destruct (dueKey a), (dueKey b), (dueKey c); try done; lia.
Qed.

Lemma due_le_total a b : due_le a b \/ due_le b a.
Proof. unfold due_le. destruct (dueKey a), (dueKey b); try tauto; lia. Qed.

Lemma byDueDateAsc_same_key a b :
  valid_due a -> dueKey a = dueKey b -> utils.byDueDateAsc a b <= 0.
Proof.
  unfold valid_due, utils.byDueDateAsc, utils.dueTime, dueKey.
  destruct (dueDate a) as [| |[x|]], (dueDate b) as [| |[y|]];
    simpl; intros Ha Hk; try done; injection Hk as ->; lia.
Qed.

Lemma filter_none {A} (P : A -> Prop) `{!forall x, Decision (P x)} (l : list A) :
  Forall (fun x => ~ P x) l -> filter P l = [].
Proof.
  induction 1 as [|x l Hx _ IH]; [done|].
  by rewrite filter_cons, decide_False.
Qed.

(** In due-date order the tasks with a due date come first. *)
Lemma due_sorted_split l :
  StronglySorted due_le l ->
  l = dated l ++ with_due None l.
Proof.
  unfold dated, with_due. induction 1 as [|x l Hl IH Hx]; [done|].
  rewrite !filter_cons. destruct (dueKey x) as [d|] eqn:Ex.
  - rewrite decide_True by (by eexists). rewrite decide_False by done.
    simpl. by f_equal.
  - rewrite decide_False by (by intros [? ?]). rewrite decide_True by done.
    assert (Hnone : Forall (fun t => dueKey t = None) l).
    { eapply Forall_impl; [exact Hx|]. intros t. unfold due_le. rewrite Ex.
      by destruct (dueKey t). }
    rewrite filter_none.
    + simpl. f_equal. symmetry. by apply filter_all_iff.
    + eapply Forall_impl; [exact Hnone|]. intros t -> [? ?]. done.
Qed.

(** X6.  On tasks whose due dates are valid, [sortByDueDate] returns a new
    array and leaves its input as it was.  The new array is a permutation
    of the input in which due instants never decrease and the tasks
    without a due date come last; tasks with the same due instant, and
    the tasks without a due date, stand in their original order. *)
Theorem sortByDueDate_spec (h : Arrays.Heap) (tasks : nat) (l : list Task) :
  h !! tasks = Some l ->
  Forall valid_due l ->
  exists (sorted : nat) (out : list Task),
    utils.sortByDueDate tasks h = Some (sorted, <[sorted := out]> h)
    /\ h !! sorted = None
    /\ (<[sorted := out]> h) !! tasks = Some l
    /\ out ≡ₚ l
    /\ StronglySorted due_le out
    /\ (forall k, with_due k out = with_due k l)
    /\ out = dated out ++ with_due None l.
Proof.
  intros Hl Hvalid.
  pose proof (is_fresh (dom h)) as Hfresh.
  assert (Hnone : h !! fresh (dom h) = None) by (by apply not_elem_of_dom).
  set (out := Arrays.stable_sort utils.byDueDateAsc l).
  assert (Hsorted : StronglySorted due_le out).
  { apply (stable_sort_sorted_by _ _ valid_due); [| |apply due_le_trans|done].
    - intros x y Hx Hy. by apply byDueDateAsc_valid.
    - intros x y Hx Hy Hc. destruct (due_le_total x y) as [H|H]; [|done].
      exfalso. apply Hc. by apply byDueDateAsc_valid. }
  assert (Hstable : forall k, with_due k out = with_due k l).
  { intros k. unfold out, with_due.
    assert (Hall : filter (fun t => valid_due t /\ dueKey t = k)
                     (Arrays.stable_sort utils.byDueDateAsc l)
                   = filter (fun t => valid_due t /\ dueKey t = k) l).
    { apply stable_sort_class. intros a b [Ha Hka] [_ Hkb].
      apply byDueDateAsc_same_key; congruence. }
    assert (Hdrop : forall l', Forall valid_due l' ->
              filter (fun t => valid_due t /\ dueKey t = k) l'
              = filter (fun t => dueKey t = k) l').
    { intros l' Hl'. induction Hl' as [|x l' Hx _ IH]; [done|].
      rewrite !filter_cons, IH.
      destruct (decide (dueKey x = k)).
      - by rewrite decide_True.
      - by rewrite decide_False by tauto. }
    rewrite <- !Hdrop; [exact Hall | done | by apply stable_sort_Forall]. }
  exists (fresh (dom h)), out.
  split; [|split; [exact Hnone|split]].
  - unfold utils.sortByDueDate, Arrays.spreadCopy, Arrays.Array_sort.
    rewrite Hl. simpl. rewrite lookup_insert_eq. by rewrite insert_insert_eq.
  - rewrite lookup_insert_ne; [exact Hl|]. intros E. rewrite E in Hnone. congruence.
  - split; [apply stable_sort_Permutation|].
    split; [exact Hsorted|]. split; [exact Hstable|].
    rewrite <- (Hstable None). by apply due_sorted_split.
Qed.

Lemma sortByDueDate_spec_witness :
  let a := sampleTask "a" low pending Undefined Undefined 1 1 in
  let b := sampleTask "b" low pending (Val (Instant 50)) Undefined 2 2 in
  let c := sampleTask "c" low pending Null Undefined 3 3 in
  let d := sampleTask "d" low pending (Val (Instant 20)) Undefined 4 4 in
  let h : Arrays.Heap := {[ 0%nat := [a; b; c; d] ]} in
  exists sorted out,
    utils.sortByDueDate 0 h = Some (sorted, <[sorted := out]> h)
    /\ (<[sorted := out]> h) !! 0%nat = Some [a; b; c; d]
    /\ with_due None out = [a; c].
Proof.
  intros a b c d h.
  assert (Hvalid : Forall valid_due [a; b; c; d]).
  { repeat (constructor; [discriminate|]). constructor. }
  destruct (sortByDueDate_spec h 0 [a; b; c; d] eq_refl Hvalid)
    as (sorted & out & Hrun & _ & Hin & _ & _ & Hstable & _).
  exists sorted, out. split; [exact Hrun|]. split; [exact Hin|].
  rewrite Hstable. reflexivity.
Defined.

Example sortByDueDate_list_example :
  let a := sampleTask "a" low pending Undefined Undefined 1 1 in
  let b := sampleTask "b" low pending (Val (Instant 50)) Undefined 2 2 in
  let c := sampleTask "c" low pending Null Undefined 3 3 in
  let d := sampleTask "d" low pending (Val (Instant 20)) Undefined 4 4 in
  utils.sortByDueDate_list [a; b; c; d] = [d; b; a; c].
Proof. reflexivity. Qed.

Lemma filter_List_filter_comm {A} (P : A -> Prop) `{!forall x, Decision (P x)}
    (f : A -> bool) (l : list A) :
  filter P (List.filter f l) = List.filter f (filter P l).
Proof.
  induction l as [|x l IH]; [done|]. simpl. rewrite filter_cons.
  destruct (f x) eqn:Ef; destruct (decide (P x)) as [Hp|Hp]; simpl;
    rewrite ?filter_cons, ?Ef, ?decide_True, ?decide_False by done;
    by rewrite IH.
Qed.

Lemma of_priority_sorted p l :
  of_priority p (utils.sortByPriority_list l) = of_priority p l.
Proof. apply stable_sort_of_priority. Qed.

(** X22.  Sorting by priority changes nothing in a list that is already in
    priority order; in particular sorting twice is sorting once. *)
Theorem sortByPriority_list_sorted (l : list Task) :
  (StronglySorted rank_ge l -> utils.sortByPriority_list l = l)
  /\ utils.sortByPriority_list (utils.sortByPriority_list l)
     = utils.sortByPriority_list l.
Proof.
  assert (H : forall l', StronglySorted rank_ge l' ->
                         utils.sortByPriority_list l' = l').
  { intros l' Hs. rewrite sortByPriority_list_classes.
    symmetry. by apply sorted_by_classes. }
  split; [apply H|]. apply H. apply stable_sort_sorted.
Qed.

(** X7.  [getUrgentTasks] keeps, in order, exactly the tasks of priority
    urgent or high that are neither completed nor archived.  It commutes
    with [sortByPriority], and archiving the completed tasks first does not
    change its result. *)
Theorem getUrgentTasks_spec (tasks : list Task) :
  utils.getUrgentTasks tasks
  = filter (fun t => (priority t = urgent \/ priority t = high)
                     /\ status t <> completed /\ status t <> archived) tasks
  /\ utils.sortByPriority_list (utils.getUrgentTasks tasks)
     = utils.getUrgentTasks (utils.sortByPriority_list tasks)
  /\ utils.getUrgentTasks (clearCompleted tasks) = utils.getUrgentTasks tasks.
Proof.
  split; [|split].
  - apply filter_bool_Prop. intros t.
    rewrite !andb_true_iff, orb_true_iff, !negb_true_iff,
      !bool_decide_eq_true, !bool_decide_eq_false. tauto.
  - rewrite !sortByPriority_list_classes. unfold utils.getUrgentTasks.
    rewrite !List.filter_app. unfold of_priority.
    by rewrite !filter_List_filter_comm.
  - unfold utils.getUrgentTasks, clearCompleted.
    induction tasks as [|t tasks IH]; [done|]. simpl. rewrite IH.
    destruct (status t) eqn:E; simpl; rewrite ?E; simpl;
      by rewrite ?andb_false_r.
Qed.

Lemma tally_cons f t l :
  tally f (t :: l) = (if f t then 1 else 0) + tally f l.
Proof. unfold tally. simpl. destruct (f t); simpl; lia. Qed.

Lemma tally_bounds f l : 0 <= tally f l <= Z.of_nat (length l).
Proof.
  unfold tally. pose proof (List.filter_length_le f l). lia.
Qed.

Lemma tally_le f g l :
  (forall t, f t = true -> g t = true) -> tally f l <= tally g l.
Proof.
  intros H. induction l as [|t l IH]; [done|]. rewrite !tally_cons.
  specialize (H t). destruct (f t), (g t); try lia; by specialize (H eq_refl).
Qed.

Lemma tally_disjoint f g l :
  (forall t, f t = true -> g t = false) ->
  tally f l + tally g l <= Z.of_nat (length l).
Proof.
  intros H. induction l as [|t l IH]; [done|]. rewrite !tally_cons.
  specialize (H t). simpl length. destruct (f t), (g t); try lia;
    by specialize (H eq_refl).
Qed.

(** The loop of [getTaskStats] adds to each counter the number of tasks
    that counter is about. *)
Lemma statsStep_fold tz now l : forall s,
  fold_left (utils.statsStep tz now) l s
  = utils.TaskStats.mk
      (utils.TaskStats.total s)
      (utils.TaskStats.pending s
       + tally (fun t => bool_decide (status t = pending)) l)
      (utils.TaskStats.completed s
       + tally (fun t => bool_decide (status t = completed)) l)
      (utils.TaskStats.archived s
       + tally (fun t => bool_decide (status t = archived)) l)
      (utils.TaskStats.overdue s + tally (utils.isTaskOverdue tz now) l)
      (utils.TaskStats.dueToday s + tally (utils.isTaskDueToday tz now) l)
      (utils.TaskStats.mkByPriority
         (utils.TaskStats.low (utils.TaskStats.byPriority s)
          + tally (fun t => bool_decide (priority t = low)) l)
         (utils.TaskStats.medium (utils.TaskStats.byPriority s)
          + tally (fun t => bool_decide (priority t = medium)) l)
         (utils.TaskStats.high (utils.TaskStats.byPriority s)
          + tally (fun t => bool_decide (priority t = high)) l)
         (utils.TaskStats.urgent (utils.TaskStats.byPriority s)
          + tally (fun t => bool_decide (priority t = urgent)) l)).
Proof.
  induction l as [|t l IH]; intros [n p c a o d [lo me hi ur]].
  - simpl. unfold tally. simpl. by rewrite !Z.add_0_r.
  - simpl fold_left. rewrite IH. rewrite !tally_cons.
    unfold utils.statsStep.
    destruct (status t), (priority t), (utils.isTaskOverdue tz now t),
      (utils.isTaskDueToday tz now t); simpl; f_equal; try lia;
      f_equal; lia.
Qed.

Lemma tally_status_total l :
  tally (fun t => bool_decide (status t = pending)) l
  + tally (fun t => bool_decide (status t = completed)) l
  + tally (fun t => bool_decide (status t = archived)) l
  = Z.of_nat (length l).
Proof.
  induction l as [|t l IH]; [done|]. rewrite !tally_cons. simpl length.
  destruct (status t); simpl; lia.
Qed.

Lemma tally_priority_total l :
  tally (fun t => bool_decide (priority t = low)) l
  + tally (fun t => bool_decide (priority t = medium)) l
  + tally (fun t => bool_decide (priority t = high)) l
  + tally (fun t => bool_decide (priority t = urgent)) l
  = Z.of_nat (length l).
Proof.
  induction l as [|t l IH]; [done|]. rewrite !tally_cons. simpl length.
  destruct (priority t); simpl; lia.
Qed.

Lemma isTaskDueToday_localDay tz now t :
  utils.isTaskDueToday tz now t = true
  <-> exists d, dueDate t = Val (Instant d) /\ localDay tz d = localDay tz now.
Proof.
  unfold utils.isTaskDueToday, copyDate, newDate.
  destruct (dueDate t) as [| |[d|]].
  - split; [discriminate | by intros (? & ? & _)].
  - split; [discriminate | by intros (? & ? & _)].
  - rewrite sameYMD_localDay. split; [by exists d|].
    by intros (d' & [= <-] & ?).
  - split; [discriminate | by intros (? & ? & _)].
Qed.

Lemma isTaskDueTomorrow_localDay tz now t :
  utils.isTaskDueTomorrow tz now t = true
  <-> exists d, dueDate t = Val (Instant d)
                /\ localDay tz d = localDay tz now + 1.
Proof.
  unfold utils.isTaskDueTomorrow, copyDate, newDate, nextDay.
  destruct (dueDate t) as [| |[d|]].
  - split; [discriminate | by intros (? & ? & _)].
  - split; [discriminate | by intros (? & ? & _)].
  - rewrite sameYMD_localDay, localDay_next. split; [by exists d|].
    by intros (d' & [= <-] & ?).
  - split; [discriminate | by intros (? & ? & _)].
Qed.

Lemma isTaskOverdue_localDay tz now t :
  utils.isTaskOverdue tz now t = true
  <-> exists d, dueDate t = Val (Instant d)
                /\ localDay tz d < localDay tz now
                /\ status t <> completed /\ status t <> archived.
Proof.
  rewrite isTaskOverdue_spec. unfold spec_isOverdue.
  destruct (dueDate t) as [| |[d|]].
  - split; [done | by intros (? & ? & _)].
  - split; [done | by intros (? & ? & _)].
  - rewrite !startOfDay_localDay. unfold msPerDay. split.
    + intros (? & ? & ?). exists d. repeat split; try done. lia.
    + intros (d' & [= <-] & ? & ? & ?). repeat split; try done. lia.
  - split; [done | by intros (? & ? & _)].
Qed.

Lemma dueToday_not_overdue tz now t :
  utils.isTaskDueToday tz now t = true -> utils.isTaskOverdue tz now t = false.
Proof.
  intros (d & Hd & Hday)%isTaskDueToday_localDay. apply not_true_is_false.
  intros (d' & Hd' & Hday' & _)%isTaskOverdue_localDay.
  rewrite Hd in Hd'. injection Hd' as <-. lia.
Qed.

(** X9.  [isTaskDueToday], [isTaskDueTomorrow] and [isTaskOverdue] compare
    local calendar days: due today is "same day as now", due tomorrow is
    "the day after now's", overdue is "an earlier day than now's" on a task
    neither completed nor archived.  No task is in two of these classes. *)
Theorem due_day_classes (tz now : Z) (t : Task) :
  (utils.isTaskDueToday tz now t = true
   <-> exists d, dueDate t = Val (Instant d) /\ localDay tz d = localDay tz now)
  /\ (utils.isTaskDueTomorrow tz now t = true
      <-> exists d, dueDate t = Val (Instant d)
                    /\ localDay tz d = localDay tz now + 1)
  /\ (utils.isTaskOverdue tz now t = true
      <-> exists d, dueDate t = Val (Instant d)
                    /\ localDay tz d < localDay tz now
                    /\ status t <> completed /\ status t <> archived)
  /\ (utils.isTaskDueToday tz now t = true ->
      utils.isTaskDueTomorrow tz now t = false
      /\ utils.isTaskOverdue tz now t = false)
  /\ (utils.isTaskDueTomorrow tz now t = true ->
      utils.isTaskOverdue tz now t = false).
Proof.
  split; [apply isTaskDueToday_localDay|].
  split; [apply isTaskDueTomorrow_localDay|].
  split; [apply isTaskOverdue_localDay|]. split.
  - intros (d & Hd & Hday)%isTaskDueToday_localDay. split.
    + apply not_true_is_false.
      intros (d' & Hd' & Hday')%isTaskDueTomorrow_localDay.
      rewrite Hd in Hd'. injection Hd' as <-. lia.
    + apply not_true_is_false.
      intros (d' & Hd' & Hday' & _)%isTaskOverdue_localDay.
      rewrite Hd in Hd'. injection Hd' as <-. lia.
  - intros (d & Hd & Hday)%isTaskDueTomorrow_localDay.
    apply not_true_is_false.
    intros (d' & Hd' & Hday' & _)%isTaskOverdue_localDay.
    rewrite Hd in Hd'. injection Hd' as <-. lia.
Qed.

(** X8.  [getTaskStats] counts each task once per family of counters:
    [total] is the length of the list, the three status counters sum to
    [total] and so do the four priority counters; [overdue] and [dueToday]
    count the tasks [isTaskOverdue] and [isTaskDueToday] accept; overdue
    tasks are pending ones, and no task is counted as both overdue and due
    today. *)
Theorem getTaskStats_spec (tz now : Z) (tasks : list Task) :
  let s := utils.getTaskStats tz now tasks in
  let p := utils.TaskStats.byPriority s in
  utils.TaskStats.total s = Z.of_nat (length tasks)
  /\ utils.TaskStats.pending s + utils.TaskStats.completed s
     + utils.TaskStats.archived s = utils.TaskStats.total s
  /\ utils.TaskStats.low p + utils.TaskStats.medium p
     + utils.TaskStats.high p + utils.TaskStats.urgent p
     = utils.TaskStats.total s
  /\ utils.TaskStats.pending s
     = tally (fun t => bool_decide (status t = pending)) tasks
  /\ utils.TaskStats.overdue s = tally (utils.isTaskOverdue tz now) tasks
  /\ utils.TaskStats.dueToday s = tally (utils.isTaskDueToday tz now) tasks
  /\ 0 <= utils.TaskStats.overdue s <= utils.TaskStats.pending s
  /\ 0 <= utils.TaskStats.dueToday s
  /\ utils.TaskStats.overdue s + utils.TaskStats.dueToday s
     <= utils.TaskStats.total s.
Proof.
  intros s p. subst p s. unfold utils.getTaskStats. rewrite statsStep_fold.
  cbn [utils.TaskStats.total utils.TaskStats.pending utils.TaskStats.completed
       utils.TaskStats.archived utils.TaskStats.overdue
       utils.TaskStats.dueToday utils.TaskStats.byPriority
       utils.TaskStats.low utils.TaskStats.medium utils.TaskStats.high
       utils.TaskStats.urgent].
  rewrite !Z.add_0_l.
  pose proof (tally_status_total tasks).
  pose proof (tally_priority_total tasks).
  pose proof (tally_bounds (utils.isTaskOverdue tz now) tasks).
  pose proof (tally_bounds (utils.isTaskDueToday tz now) tasks).
  assert (tally (utils.isTaskOverdue tz now) tasks
          <= tally (fun t => bool_decide (status t = pending)) tasks).
  { apply tally_le. intros t (d & _ & _ & Hc & Ha)%isTaskOverdue_localDay.
    apply bool_decide_eq_true. by destruct (status t). }
  assert (tally (utils.isTaskOverdue tz now) tasks
          + tally (utils.isTaskDueToday tz now) tasks
          <= Z.of_nat (length tasks)).
  { apply tally_disjoint. intros t Ht. apply not_true_is_false. intros Hd.
    apply (dueToday_not_overdue tz now t) in Hd. congruence. }
  repeat split; try done; lia.
Qed.

Lemma List_filter_true {A} (f : A -> bool) (l : list A) :
  (forall x, f x = true) -> List.filter f l = l.
Proof.
  intros Hf. induction l as [|x l IH]; [done|]. simpl. by rewrite Hf, IH.
Qed.

Lemma List_filter_true_on {A} (f : A -> bool) (l : list A) :
  (forall x, x ∈ l -> f x = true) -> List.filter f l = l.
Proof.
  induction l as [|x l IH]; intros Hf; [done|]. simpl.
  rewrite Hf by left. rewrite IH; [done|]. intros y Hy. apply Hf. by right.
Qed.

Lemma includes_empty s : utils.includes s "" = true.
Proof. destruct s; reflexivity. Qed.

(** X10.  With the empty query, [searchTasks] returns the whole collection
    (the lower-cased empty text is a substring of every title); for every
    query the result is a sub-collection in the original order. *)
Theorem searchTasks_empty_query (toLowerCase : string -> string)
    (tasks : list Task) (query : string) :
  toLowerCase "" = "" ->
  utils.searchTasks toLowerCase tasks "" = tasks
  /\ sublist (utils.searchTasks toLowerCase tasks query) tasks.
Proof.
  intros Hempty. unfold utils.searchTasks. split.
  - rewrite Hempty. apply List_filter_true.
    intros t. by rewrite includes_empty.
  - generalize (fun task : Task =>
      utils.includes (toLowerCase (title task)) (toLowerCase query)
      || match description task with
         | Some s => utils.nonempty (Some s)
                     && utils.includes (toLowerCase s) (toLowerCase query)
         | None => false
         end).
    intros f. induction tasks as [|t tasks IH]; [done|]. simpl.
    destruct (f t); [by apply sublist_skip | by apply sublist_cons].
Qed.

Lemma searchTasks_empty_query_witness :
  let a := mkTask "1" "Fix critical bug" None Undefined urgent pending
                  (Instant 1) (Instant 1) Undefined None None in
  let b := mkTask "2" "Buy groceries" (Some "Milk, BUGles") Undefined low
                  pending (Instant 2) (Instant 2) Undefined None None in
  let c := mkTask "3" "Walk" None Undefined low pending
                  (Instant 3) (Instant 3) Undefined None None in
  utils.searchTasks lowerAscii [a; b; c] "" = [a; b; c]
  /\ utils.searchTasks lowerAscii [a; b; c] "Bug" = [a; b].
Proof.
  intros a b c.
  split; [|reflexivity].
  exact (proj1 (searchTasks_empty_query lowerAscii [a; b; c] "" eq_refl)).
Defined.

(** ** Grouping by any field *)

Lemma forEach_group_throws key tasks : forall grouped,
  no_inherited_keys grouped ->
  (utils.forEach_group key tasks grouped
   = utils.Throw "TypeError: grouped[key].push is not a function"
   <-> Exists (fun t => utils.inherited (key t) = true) tasks)
  /\ (forall e, utils.forEach_group key tasks grouped = utils.Throw e ->
        e = "TypeError: grouped[key].push is not a function").
Proof.
  induction tasks as [|t tasks IH]; intros grouped Hinv.
  - simpl. split; [|discriminate]. split; [discriminate|].
    intros H. by apply Exists_nil in H.
  - simpl. unfold utils.groupStep.
    destruct (utils.inherited (key t)) eqn:Ek.
    + rewrite (Hinv _ Ek). split; [|by intros e [= <-]].
      split; [intros _; by left | done].
    + assert (Hnext : forall v, no_inherited_keys (<[key t := v]> grouped)).
      { intros v k Hk. rewrite lookup_insert_ne; [by apply Hinv|].
        intros <-. congruence. }
      assert (Hcons : Exists (fun t0 => utils.inherited (key t0) = true) (t :: tasks)
                      <-> Exists (fun t0 => utils.inherited (key t0) = true) tasks).
      { rewrite Exists_cons. split; [|by right].
        intros [H|H]; [congruence | exact H]. }
      rewrite Hcons.
      destruct (grouped !! key t) as [arr|].
      * exact (IH _ (Hnext (arr ++ [t]))).
      * exact (IH _ (Hnext [t])).
Qed.

(** X21.  [groupTasks] on any field throws exactly when the key of some
    task names a member that every object inherits (["constructor"],
    ["toString"], ["__proto__"], ...), and then with a TypeError; otherwise
    it completes with the grouping of its input, whose groups taken
    together are a permutation of the input. *)
Theorem groupTasks_by_throws (key : Task -> string) (tasks : list Task) :
  (utils.groupTasks_by key tasks
   = utils.Throw "TypeError: grouped[key].push is not a function"
   <-> Exists (fun t => utils.inherited (key t) = true) tasks)
  /\ (forall e, utils.groupTasks_by key tasks = utils.Throw e ->
        e = "TypeError: grouped[key].push is not a function")
  /\ (Forall (fun t => utils.inherited (key t) = false) tasks ->
      exists grouped,
        utils.groupTasks_by key tasks = utils.Normal grouped
        /\ grouping key tasks grouped
        /\ dom grouped = list_to_set (map key tasks)
        /\ all_groups grouped ≡ₚ tasks).
Proof.
  destruct (forEach_group_throws key tasks ∅) as [Hiff Herr].
  { intros k _. apply lookup_empty. }
  split; [exact Hiff|]. split; [exact Herr|].
  intros Hkeys.
  destruct (groupTasks_by_grouping key tasks Hkeys) as (grouped & Hrun & Hg & Hp).
  exists grouped. repeat split; try done. by apply grouping_dom.
Qed.

Lemma groupTasks_by_throws_witness :
  let a := mkTask "1" "toString" None Undefined low pending
                  (Instant 1) (Instant 1) Undefined None None in
  let b := mkTask "2" "walk" None Undefined low pending
                  (Instant 2) (Instant 2) Undefined None None in
  (exists grouped, utils.groupTasks stamp_date [b; b] utils.k_title
                   = utils.Normal grouped
                   /\ grouped !! "walk" = Some [b; b])
  /\ utils.groupTasks stamp_date [b; a] utils.k_title
     = utils.Throw "TypeError: grouped[key].push is not a function".
Proof.
  intros a b. split.
  - destruct (groupTasks_by_throws (utils.String_field stamp_date utils.k_title)
                [b; b]) as (_ & _ & Hok).
    destruct Hok as (grouped & Hrun & Hg & _).
    { repeat constructor. }
    exists grouped. split; [exact Hrun|]. by rewrite Hg.
  - apply (groupTasks_by_throws (utils.String_field stamp_date utils.k_title)
             [b; a]).
    right. by left.
Defined.


(** ** More on the persisted store *)

Section StoreEdges.

Import utils useLocalStorage.

Variable toISOString : Z -> string.
Variable parseDate : string -> Date.

Hypothesis toISOString_nonempty :
  forall ms, valid_time ms -> toISOString ms <> "".
Hypothesis parseDate_toISOString :
  forall ms, valid_time ms -> parseDate (toISOString ms) = Instant ms.

(** X11.  [load] falls back to the caller's initial collection, leaving the
    world untouched, when there is no [window], when the key is absent, or
    when the stored text is empty; on a text that cannot be parsed it
    falls back as well and logs one warning.  It never throws, and never
    changes the in-memory collection or the storage. *)
Theorem load_fallbacks (b : Browser) (key : string) (initialValue : list Task)
    (w : World) :
  (hasWindow b = false ->
   load parseDate b key initialValue w = (Normal initialValue, w))
  /\ (localStorage w !! key = None ->
      load parseDate b key initialValue w = (Normal initialValue, w))
  /\ (localStorage w !! key = Some (Unparseable "") ->
      load parseDate b key initialValue w = (Normal initialValue, w))
  /\ (forall s, hasWindow b = true -> s <> "" ->
      localStorage w !! key = Some (Unparseable s) ->
      load parseDate b key initialValue w
      = (Normal initialValue,
         {| storedValue := storedValue w;
            localStorage := localStorage w;
            console := console w
                       ++ [("Error reading from localStorage (" +:+ key +:+ "):",
                            "SyntaxError")] |}))
  /\ (exists v w',
        load parseDate b key initialValue w = (Normal v, w')
        /\ storedValue w' = storedValue w
        /\ localStorage w' = localStorage w).
Proof.
  unfold load, try_catch, bind, getItem, lift, ret, console_warn.
  destruct (hasWindow b); simpl.
  - split; [discriminate|]. split; [by intros ->|]. split; [by intros ->|].
    split.
    + intros s _ Hs ->. simpl. rewrite bool_decide_eq_false_2 by done. done.
    + destruct (localStorage w !! key) as [[doc|s]|]; simpl.
      * by eexists _, _.
      * case_bool_decide; simpl; by eexists _, _.
      * by eexists _, _.
  - split; [done|]. split; [done|]. split; [done|].
    split; [discriminate|]. by eexists _, _.
Qed.

(** X13.  A storage event for another key, or one without a new value, or
    with the empty text, changes nothing.  An event for the hook's key whose
    text cannot be parsed only logs a warning.  Whatever the event,
    [handleStorageChange] completes normally and leaves the storage as it
    is. *)
Theorem handleStorageChange_ignores (key e_key : string)
    (e_newValue : option StoredText) (w : World) :
  (e_key <> key -> handleStorageChange parseDate key e_key e_newValue w = (Normal tt, w))
  /\ (e_newValue = None \/ e_newValue = Some (Unparseable "") ->
      handleStorageChange parseDate key e_key e_newValue w = (Normal tt, w))
  /\ (forall s, s <> "" ->
      handleStorageChange parseDate key key (Some (Unparseable s)) w
      = (Normal tt,
         {| storedValue := storedValue w;
            localStorage := localStorage w;
            console :=
              console w
              ++ [("Error parsing storage update from another tab ("
                   +:+ key +:+ "):", "SyntaxError")] |}))
  /\ (exists w',
        handleStorageChange parseDate key e_key e_newValue w = (Normal tt, w')
        /\ localStorage w' = localStorage w).
Proof.
  unfold handleStorageChange, try_catch, bind, lift, ret, console_warn,
    setStoredValue.
  split; [|split; [|split]].
  - intros Hne. destruct e_newValue as [text|]; [|done].
    by rewrite bool_decide_eq_false_2.
  - intros [-> | ->]; [done|]. simpl. by rewrite andb_false_r.
  - intros s Hs. rewrite bool_decide_eq_true_2 by done. simpl.
    rewrite bool_decide_eq_false_2 by done. done.
  - destruct e_newValue as [[doc|s]|]; simpl.
    + case_bool_decide; simpl; by eexists.
    + case_bool_decide; simpl; [|by eexists].
      case_bool_decide; simpl; by eexists.
    + by eexists.
Qed.

(** X12.  When another tab has written a valid collection under the hook's
    key, the storage event replaces the in-memory collection by exactly
    what that tab saved (an absent [dueDate] or [completedAt] read as
    [null]), whatever the collection held before; storage and console are
    untouched. *)
Theorem handleStorageChange_replaces (key : string) (tasks : list Task)
    (w : World) :
  Forall valid_task tasks ->
  handleStorageChange parseDate key key
    (Some (JSON_stringify toISOString tasks)) w
  = (Normal tt,
     {| storedValue := map nullified tasks;
        localStorage := localStorage w;
        console := console w |}).
Proof.
  intros Hvalid.
  unfold handleStorageChange, try_catch, bind, lift, ret, setStoredValue.
  rewrite bool_decide_eq_true_2 by done. simpl. do 3 f_equal.
  rewrite map_map. apply map_ext_Forall.
  eapply Forall_impl; [exact Hvalid|]. intros t Ht.
  by apply (reconstruct_toJSON toISOString parseDate).
Qed.

End StoreEdges.

Lemma load_fallbacks_witness :
  useLocalStorage.load stamp_parse browser_ok "nimbustodo_tasks"
    [sampleTask "1" low pending Undefined Undefined 1 1]
    (useLocalStorage.mkWorld []
       {[ "nimbustodo_tasks" := useLocalStorage.Unparseable "{oops" ]} [])
  = (utils.Normal [sampleTask "1" low pending Undefined Undefined 1 1],
     useLocalStorage.mkWorld []
       {[ "nimbustodo_tasks" := useLocalStorage.Unparseable "{oops" ]}
       [("Error reading from localStorage (nimbustodo_tasks):", "SyntaxError")]).
Proof.
  destruct (load_fallbacks stamp_parse browser_ok "nimbustodo_tasks"
              [sampleTask "1" low pending Undefined Undefined 1 1]
              (useLocalStorage.mkWorld []
                 {[ "nimbustodo_tasks" := useLocalStorage.Unparseable "{oops" ]} []))
    as (_ & _ & _ & Hbad & _).
  exact (Hbad "{oops" eq_refl ltac:(discriminate) eq_refl).
Defined.

(** Scenario: tab A saves, tab B receives the event. *)
Lemma handleStorageChange_replaces_witness :
  let a := sampleTask "a" low pending (Val (Instant 1700000000123)) Null
                      1600000000000 1600000000001 in
  let mine := sampleTask "local" high pending Undefined Undefined 5 5 in
  let tabB := useLocalStorage.mkWorld [mine] ∅ [] in
  useLocalStorage.handleStorageChange stamp_parse "nimbustodo_tasks"
    "nimbustodo_tasks"
    (Some (useLocalStorage.JSON_stringify stamp_toString [a])) tabB
  = (utils.Normal tt, useLocalStorage.mkWorld [a] ∅ []).
Proof.
  intros a mine tabB.
  assert (Hvalid : Forall useLocalStorage.valid_task [a]).
  { constructor; [|constructor]. apply sample_valid_task; simpl;
      unfold useLocalStorage.valid_time; solve [lia | exact I]. }
  exact (handleStorageChange_replaces stamp_toString stamp_parse
           (fun ms _ => stamp_toString_nonempty ms)
           (fun ms _ => stamp_parse_toString ms)
           "nimbustodo_tasks" [a] tabB Hvalid).
Defined.

(** ** The page's handlers (Home.tsx) *)

(** X14.  The page's own status change sets [status] and [completedAt]
    exactly as the hook's [updateTaskStatus] does, and establishes the
    completion invariant on the tasks it touches, but it never writes
    [updatedAt]: every task keeps the [updatedAt] (and the id) it had.
    Applying [updateTaskStatus] afterwards gives what [updateTaskStatus]
    alone gives. *)
Theorem Home_statusChange_spec (now : Z) (taskId : string) (st : TaskStatus)
    (prev : list Task) :
  Forall2 (fun t t' => updatedAt t' = updatedAt t /\ id t' = id t
                       /\ (id t <> taskId -> t' = t)
                       /\ (id t = taskId -> completion_inv t'))
          prev (Home.statusChange now taskId st prev)
  /\ map status (Home.statusChange now taskId st prev)
     = map status (updateTaskStatus now taskId st prev)
  /\ map completedAt (Home.statusChange now taskId st prev)
     = map completedAt (updateTaskStatus now taskId st prev)
  /\ updateTaskStatus now taskId st (Home.statusChange now taskId st prev)
     = updateTaskStatus now taskId st prev.
Proof.
  split; [|split; [|split]].
  - apply (map_where_Forall2 _ (fun t => bool_decide (id t = taskId))).
    + intros t Ht. apply bool_decide_eq_true in Ht.
      split; [done|]. split; [done|]. split; [done|]. intros _.
      unfold completion_inv. simpl. case_bool_decide; simpl; split; congruence.
    + intros t Ht. apply bool_decide_eq_false in Ht. by repeat split.
  - unfold Home.statusChange, updateTaskStatus. rewrite !map_map.
    apply map_ext. intros t. by case_bool_decide.
  - unfold Home.statusChange, updateTaskStatus. rewrite !map_map.
    apply map_ext. intros t. by case_bool_decide.
  - unfold Home.statusChange, updateTaskStatus. rewrite map_map.
    apply map_ext. intros t. destruct (decide (id t = taskId)) as [Ht|Ht].
    + rewrite (bool_decide_eq_true_2 _ Ht). simpl.
      rewrite (bool_decide_eq_true_2 _ Ht). reflexivity.
    + by rewrite !(bool_decide_eq_false_2 _ Ht).
Qed.

(** A status change on the page leaves the old [updatedAt]. *)
Example Home_statusChange_keeps_updatedAt :
  Home.statusChange 7 "a" completed
    [sampleTask "a" low pending Undefined Undefined 1 1]
  = [sampleTask "a" low completed Undefined (Val (Instant 7)) 1 1].
Proof. reflexivity. Qed.

Section HomePersistence.

Import utils useLocalStorage.

Variable toISOString : Z -> string.
Variable parseDate : string -> Date.

Hypothesis toISOString_nonempty :
  forall ms, valid_time ms -> toISOString ms <> "".
Hypothesis parseDate_toISOString :
  forall ms, valid_time ms -> parseDate (toISOString ms) = Instant ms.

Lemma deletion_valid taskId l :
  Forall valid_task l -> Forall valid_task (Home.deletion taskId l).
Proof. apply Forall_filter_bool. Qed.

(** X15.  Deleting on the page persists: when the browser takes the write
    and the collection is valid, [handleDelete id] leaves in memory the
    collection without the tasks of that id, and a reload of the page
    loads that same collection (absent [dueDate]/[completedAt] read as
    [null]), in which no task has that id. *)
Theorem handleDelete_persists (b : Browser) (taskId : string)
    (initialValue : list Task) (w : World) :
  hasWindow b = true ->
  (forall text, accepts b Home.storageKey text = true) ->
  Forall valid_task (storedValue w) ->
  exists w' : World,
    Home.handleDelete toISOString b taskId w = (Normal tt, w')
    /\ storedValue w' = deleteTask taskId (storedValue w)
    /\ load parseDate b Home.storageKey initialValue w'
       = (Normal (map nullified (deleteTask taskId (storedValue w))), w')
    /\ Forall (fun t => id t <> taskId)
              (map nullified (deleteTask taskId (storedValue w))).
Proof.
  intros Hwin Hok Hvalid.
  unfold Home.handleDelete, Home.setTasks.
  rewrite (setValue_write_success toISOString b Home.storageKey
             (inr (Home.deletion taskId)) w Hwin (Hok _)).
  eexists. split; [reflexivity|]. simpl. split; [reflexivity|]. split.
  - unfold load, try_catch, bind, getItem, lift, ret. rewrite Hwin. simpl.
    rewrite lookup_insert_eq. simpl. do 2 f_equal.
    rewrite map_map. apply map_ext_Forall.
    eapply Forall_impl; [exact (deletion_valid taskId _ Hvalid)|].
    intros t Ht. by apply (reconstruct_toJSON toISOString parseDate).
  - apply Forall_fmap. eapply Forall_impl.
    + apply (deleteTask_none_left taskId (storedValue w)).
    + intros t Ht. exact Ht.
Qed.

End HomePersistence.

Lemma handleDelete_persists_witness :
  let a := sampleTask "a" low pending (Val (Instant 1700000000123)) Null
                      1600000000000 1600000000001 in
  let b := sampleTask "b" high completed Null (Val (Instant 1650000000999))
                      1600000000000 1650000000999 in
  let w := useLocalStorage.mkWorld [a; b] ∅ [] in
  exists w',
    Home.handleDelete stamp_toString browser_ok "a" w = (utils.Normal tt, w')
    /\ useLocalStorage.load stamp_parse browser_ok Home.storageKey [] w'
       = (utils.Normal [b], w').
Proof.
  intros a b w.
  assert (Hvalid : Forall useLocalStorage.valid_task [a; b]).
  { constructor; [|constructor; [|constructor]];
      apply sample_valid_task; simpl; unfold useLocalStorage.valid_time;
      solve [lia | exact I]. }
  destruct (handleDelete_persists stamp_toString stamp_parse
              (fun ms _ => stamp_toString_nonempty ms)
              (fun ms _ => stamp_parse_toString ms)
              browser_ok "a" [] w eq_refl (fun _ => eq_refl) Hvalid)
    as (w' & Hrun & _ & Hload & _).
  exists w'. split; [exact Hrun|]. exact Hload.
Defined.

(** ** Editing in the modal (TaskDetailModal.tsx, Home.tsx) *)

Section ModalSave.

Variable trim : string -> string.

Lemma modal_validateForm_ok edited :
  (TaskDetailModal.validateForm trim (Some edited)).1
  = negb (bool_decide (trim (title edited) = "")).
Proof.
  unfold TaskDetailModal.validateForm. cbn [fst].
  destruct (decide (trim (title edited) = "")) as [H|H].
  - rewrite !(bool_decide_eq_true_2 _ H). by rewrite map_size_singleton.
  - rewrite !(bool_decide_eq_false_2 _ H). by rewrite map_size_empty.
Qed.

(** X16.  Saving from the modal is refused when the trimmed title is empty
    (or when nothing is being edited): nothing is handed to [onSave].
    Otherwise the task saved has the trimmed title, [updatedAt = now], a
    description that is never the empty text, and the id, status, dates
    and tags of the task edited; the page then replaces exactly the tasks
    of that id by it and keeps the ids of the collection. *)
Theorem modal_save_spec (now : Z) (edited : Task) (prev : list Task) :
  TaskDetailModal.handleSave trim now None = None
  /\ (trim (title edited) = "" ->
      TaskDetailModal.handleSave trim now (Some edited) = None)
  /\ (trim (title edited) <> "" ->
      exists saved,
        TaskDetailModal.handleSave trim now (Some edited) = Some saved
        /\ title saved = trim (title edited)
        /\ updatedAt saved = Instant now
        /\ description saved <> Some ""
        /\ id saved = id edited /\ status saved = status edited
        /\ createdAt saved = createdAt edited
        /\ completedAt saved = completedAt edited
        /\ dueDate saved = dueDate edited /\ priority saved = priority edited
        /\ tags saved = tags edited /\ listId saved = listId edited
        /\ map id (Home.modalSave saved prev) = map id prev
        /\ Forall2 (fun t t' => (id t = id edited -> t' = saved)
                                /\ (id t <> id edited -> t' = t))
                   prev (Home.modalSave saved prev)).
Proof.
  split; [reflexivity|]. split.
  - intros Hblank. unfold TaskDetailModal.handleSave.
    rewrite modal_validateForm_ok, bool_decide_eq_true_2 by done. done.
  - intros Hok. unfold TaskDetailModal.handleSave.
    rewrite modal_validateForm_ok, bool_decide_eq_false_2 by done. simpl.
    eexists. split; [reflexivity|]. simpl.
    repeat (split; [reflexivity|]). split; [|repeat (split; [reflexivity|]); split].
    + destruct (description edited) as [s|]; [|done].
      case_bool_decide; [done|]. congruence.
    + unfold Home.modalSave. rewrite map_map. apply map_ext.
      intros t. simpl. by case_bool_decide.
    + apply (map_where_Forall2 _ (fun t => bool_decide (id t = id edited))).
      * intros t Ht. apply bool_decide_eq_true in Ht. by split.
      * intros t Ht. apply bool_decide_eq_false in Ht. by split.
Qed.

End ModalSave.

(** ** What the list shows (TaskListDisplay.tsx) *)

Section ListDisplay.

Import TaskListDisplay.

Lemma stable_sort_ext cmp cmp' l :
  (forall a b, cmp a b = cmp' a b) ->
  Arrays.stable_sort cmp l = Arrays.stable_sort cmp' l.
Proof.
  intros Hext. induction l as [|x l IH]; [done|]. simpl. rewrite IH.
  generalize (Arrays.stable_sort cmp' l). intros s.
  induction s as [|y s IHs]; [done|]. simpl. by rewrite Hext, IHs.
Qed.

Lemma sortedTasks_Permutation sortBy l : sortedTasks sortBy l ≡ₚ l.
Proof. destruct sortBy; simpl; try apply stable_sort_Permutation; done. Qed.

Lemma sortedTasks_priority l :
  sortedTasks sort_priority l = utils.sortByPriority_list l.
Proof. apply stable_sort_ext. reflexivity. Qed.

Lemma groupKeyOf_not_inherited groupBy t :
  utils.inherited (groupKeyOf groupBy t) = false.
Proof.
  destruct groupBy; simpl; (by destruct (status t)) || (by destruct (priority t)).
Qed.

Lemma groupedTasks_grouping sortBy groupBy filtered :
  groupBy <> group_none ->
  exists grouped,
    groupedTasks sortBy groupBy filtered = utils.Normal grouped
    /\ grouping (groupKeyOf groupBy) (sortedTasks sortBy filtered) grouped.
Proof.
  intros Hg.
  destruct (groupTasks_by_grouping (groupKeyOf groupBy)
              (sortedTasks sortBy filtered)) as (grouped & Hrun & Hgr & _).
  { apply list.Forall_forall. intros t _. apply groupKeyOf_not_inherited. }
  exists grouped. split; [|exact Hgr].
  unfold groupedTasks. by destruct groupBy.
Qed.

(** The blocks on screen hold, for each key of the group order, the tasks
    of that key. *)
Lemma blocks_shown groupBy key l grouped ks :
  grouping key l grouped ->
  concat (map snd (omap (block groupBy grouped) ks))
  = concat (map (fun k => with_key key k l) ks).
Proof.
  intros Hg. induction ks as [|k ks IH]; [done|].
  assert (Hcons : omap (block groupBy grouped) (k :: ks)
                  = match block groupBy grouped k with
                    | Some y => y :: omap (block groupBy grouped) ks
                    | None => omap (block groupBy grouped) ks
                    end) by reflexivity.
  rewrite Hcons. cbn [map concat]. unfold block at 1. rewrite Hg.
  destruct (with_key key k l) as [|t g] eqn:E; [exact IH|].
  rewrite bool_decide_eq_false_2 by done. cbn [map concat snd].
  by rewrite IH.
Qed.

Lemma with_key_status s l :
  with_key (groupKeyOf group_status) (utils.String_status s) l
  = filter (fun t => status t = s) l.
Proof.
  apply list_filter_iff. intros t. simpl. split; [|by intros ->].
  apply String_status_inj.
Qed.

Lemma with_key_priority p l :
  with_key (groupKeyOf group_priority) (utils.String_priority p) l
  = of_priority p l.
Proof.
  apply list_filter_iff. intros t. simpl. split; [|by intros ->].
  apply String_priority_inj.
Qed.

Lemma classes_Permutation l :
  of_priority urgent l ++ of_priority high l
  ++ of_priority medium l ++ of_priority low l ≡ₚ l.
Proof.
  rewrite <- sortByPriority_list_classes. apply stable_sort_Permutation.
Qed.

Lemma render_eq tasks filterStatus sortBy groupBy emptyMessage grouped :
  groupedTasks sortBy groupBy (filteredTasks tasks filterStatus)
  = utils.Normal grouped ->
  render tasks filterStatus sortBy groupBy emptyMessage
  = utils.Normal
      (if bool_decide (length (filteredTasks tasks filterStatus) = 0%nat)
       then EmptyState emptyMessage
       else Groups (omap (block groupBy grouped) (groupOrder groupBy))).
Proof. intros H. unfold render. rewrite H. by case_bool_decide. Qed.

(** The tasks on screen are the tasks of the keys of the group order. *)
Lemma shown_render tasks filterStatus sortBy groupBy emptyMessage grouped :
  groupBy <> group_none ->
  groupedTasks sortBy groupBy (filteredTasks tasks filterStatus)
  = utils.Normal grouped ->
  grouping (groupKeyOf groupBy)
           (sortedTasks sortBy (filteredTasks tasks filterStatus)) grouped ->
  exists r,
    render tasks filterStatus sortBy groupBy emptyMessage = utils.Normal r
    /\ (filteredTasks tasks filterStatus <> [] ->
        r = Groups (omap (block groupBy grouped) (groupOrder groupBy)))
    /\ shown r
       = concat (map (fun k => with_key (groupKeyOf groupBy) k
                                 (sortedTasks sortBy
                                    (filteredTasks tasks filterStatus)))
                     (groupOrder groupBy)).
Proof.
  intros Hgb Hrun Hg. eexists. split; [by apply render_eq|].
  case_bool_decide as Hlen.
  - apply nil_length_inv in Hlen. split; [done|]. rewrite Hlen.
    cbn [shown]. by destruct sortBy, groupBy.
  - split; [done|]. cbn [shown]. by apply blocks_shown.
Qed.

(** X17.  Grouped by status, the list shows the pending tasks and then the
    completed ones, each group in the order of the sort chosen, and never
    an archived task: under the filter ['archived'] it shows no task at
    all, and no empty-state message either when there are archived tasks.
    The filter itself is the hook's [getTasksByStatus]. *)
Theorem render_group_status (tasks : list Task)
    (filterStatus : StatusOrAll) (sortBy : SortBy) (emptyMessage : string) :
  let filtered := filteredTasks tasks filterStatus in
  let sorted := sortedTasks sortBy filtered in
  filtered = getTasksByStatus tasks filterStatus
  /\ exists r,
       render tasks filterStatus sortBy group_status emptyMessage
       = utils.Normal r
       /\ shown r = filter (fun t => status t = pending) sorted
                    ++ filter (fun t => status t = completed) sorted
       /\ Forall (fun t => status t <> archived) (shown r)
       /\ (filterStatus = just archived ->
           shown r = [] /\ (filtered <> [] -> r = Groups [])).
Proof.
  intros filtered sorted. split; [by destruct filterStatus|].
  destruct (groupedTasks_grouping sortBy group_status filtered)
    as (grouped & Hrun & Hg); [done|].
  destruct (shown_render tasks filterStatus sortBy group_status emptyMessage
              grouped ltac:(done) Hrun Hg) as (r & Hr & Hgroups & Hshown).
  fold filtered in Hgroups, Hshown. fold sorted in Hshown.
  assert (Hshown' : shown r = filter (fun t => status t = pending) sorted
                              ++ filter (fun t => status t = completed) sorted).
  { rewrite Hshown. cbn [groupOrder map concat]. rewrite app_nil_r.
    change "pending" with (utils.String_status pending).
    change "completed" with (utils.String_status completed).
    by rewrite !with_key_status. }
  exists r. split; [exact Hr|]. split; [exact Hshown'|]. split.
  - rewrite Hshown'. apply Forall_app. split;
      apply list.Forall_forall; intros t Ht;
      apply list_elem_of_filter in Ht as [Ht _]; by rewrite Ht.
  - intros ->.
    assert (Harch : Forall (fun t => status t = archived) sorted).
    { subst sorted. rewrite sortedTasks_Permutation. subst filtered. simpl.
      apply list.Forall_forall. intros t Ht.
      apply list_elem_of_In, List.filter_In in Ht as [_ Ht].
      by apply bool_decide_eq_true in Ht. }
    assert (Hnil : forall s, s <> archived ->
              filter (fun t => status t = s) sorted = []).
    { intros s Hs. apply filter_none. eapply Forall_impl; [exact Harch|].
      intros t -> ?. congruence. }
    split.
    + rewrite Hshown'. by rewrite !Hnil.
    + intros Hne. rewrite (Hgroups Hne). f_equal.
      assert (Hblock : forall s, s <> archived ->
                block group_status grouped (utils.String_status s) = None).
      { intros s Hs. unfold block. rewrite Hg, with_key_status.
        fold filtered. fold sorted. by rewrite Hnil. }
      cbn [groupOrder].
      change "pending" with (utils.String_status pending).
      change "completed" with (utils.String_status completed).
      assert (Hom : forall f (a b : string),
                f a = None -> f b = None ->
                omap f [a; b] = ([] : list (option string * list Task))).
      { intros f a b Ha Hb.
        change (omap f [a; b])
          with (match f a with
                | Some y => y :: match f b with Some z => [z] | None => [] end
                | None => match f b with Some z => [z] | None => [] end
                end).
        by rewrite Ha, Hb. }
      apply Hom; by apply Hblock.
Qed.

(** An archived task under the ['archived'] filter: nothing is shown. *)
Example render_archived_shows_nothing :
  render [sampleTask "1" low archived Undefined Null 1 1] (just archived)
         sort_priority group_status "No tasks to display"
  = utils.Normal (Groups []).
Proof. reflexivity. Qed.

(** X18.  Grouped by priority, the list shows every filtered task exactly
    once: the urgent ones, then high, medium and low, each group in the
    order of the sort chosen; with the priority sort this is the sorted
    list itself.  Ungrouped, it shows the sorted list. *)
Theorem render_group_priority (tasks : list Task)
    (filterStatus : StatusOrAll) (sortBy : SortBy) (emptyMessage : string) :
  let filtered := filteredTasks tasks filterStatus in
  let sorted := sortedTasks sortBy filtered in
  (exists r,
     render tasks filterStatus sortBy group_priority emptyMessage
     = utils.Normal r
     /\ shown r = of_priority urgent sorted ++ of_priority high sorted
                  ++ of_priority medium sorted ++ of_priority low sorted
     /\ shown r ≡ₚ filtered
     /\ (sortBy = sort_priority ->
         shown r = utils.sortByPriority_list filtered))
  /\ (exists r,
        render tasks filterStatus sortBy group_none emptyMessage
        = utils.Normal r
        /\ shown r = sorted).
Proof.
  intros filtered sorted. split.
  - destruct (groupedTasks_grouping sortBy group_priority filtered)
      as (grouped & Hrun & Hg); [done|].
    destruct (shown_render tasks filterStatus sortBy group_priority
                emptyMessage grouped ltac:(done) Hrun Hg)
      as (r & Hr & _ & Hshown).
    fold filtered in Hshown. fold sorted in Hshown.
    assert (Hshown' : shown r = of_priority urgent sorted
                                ++ of_priority high sorted
                                ++ of_priority medium sorted
                                ++ of_priority low sorted).
    { rewrite Hshown. cbn [groupOrder map concat]. rewrite app_nil_r.
      change "urgent" with (utils.String_priority urgent).
      change "high" with (utils.String_priority high).
      change "medium" with (utils.String_priority medium).
      change "low" with (utils.String_priority low).
      by rewrite !with_key_priority. }
    exists r. split; [exact Hr|]. split; [exact Hshown'|]. split.
    + rewrite Hshown', classes_Permutation. apply sortedTasks_Permutation.
    + intros ->. rewrite Hshown'. subst sorted.
      rewrite sortedTasks_priority. symmetry.
      apply sorted_by_classes, stable_sort_sorted.
  - exists (if bool_decide (length filtered = 0%nat)
            then EmptyState emptyMessage
            else Groups (omap (block group_none {[ "ungrouped" := sorted ]})
                              (groupOrder group_none))).
    split; [exact (render_eq tasks filterStatus sortBy group_none emptyMessage
                     {[ "ungrouped" := sorted ]} eq_refl)|].
    case_bool_decide as Hlen.
    + apply nil_length_inv in Hlen. subst sorted filtered. rewrite Hlen.
      by destruct sortBy.
    + cbn [shown groupOrder].
      change (omap (block group_none {[ "ungrouped" := sorted ]}) ["ungrouped"])
        with (match block group_none {[ "ungrouped" := sorted ]} "ungrouped" with
              | Some y => [y]
              | None => []
              end).
      unfold block. rewrite lookup_singleton_eq.
      case_bool_decide as Hs; cbn [map concat snd]; [|by rewrite app_nil_r].
      apply nil_length_inv in Hs. by rewrite Hs.
Qed.

End ListDisplay.

(** ** The creation form (TaskForm.tsx) *)

Section Form.

Import TaskForm.

Variable trim : string -> string.
Variable parseDate : string -> Date.

Lemma form_validateForm_ok f :
  (validateForm trim f).1 = negb (bool_decide (trim (form_title f) = "")).
Proof.
  unfold validateForm. cbn [fst].
  destruct (decide (trim (form_title f) = "")) as [H|H].
  - rewrite !(bool_decide_eq_true_2 _ H). by rewrite map_size_singleton.
  - rewrite !(bool_decide_eq_false_2 _ H). by rewrite map_size_empty.
Qed.

(** X19.  Submitting the form with a title that is empty once trimmed
    submits nothing: the fields stay as typed and the title error is set.
    Otherwise the input submitted has the trimmed, non-empty title, no
    status, a description and tags that are absent rather than empty, and
    the form is reset; a task added from it is pending, has a non-empty
    title and satisfies the completion invariant. *)
Theorem handleSubmit_spec (f : Form) :
  (trim (form_title f) = "" ->
   handleSubmit trim parseDate f
   = (None, mkForm (form_title f) (form_description f) (form_dueDate f)
                   (form_priority f) (form_tags f) (form_newTag f)
                   {[ "title" := "Title is required" ]}))
  /\ (trim (form_title f) <> "" ->
      exists input,
        handleSubmit trim parseDate f
        = (Some input, mkForm "" "" "" medium [] "" ∅)
        /\ input_title input = trim (form_title f)
        /\ input_title input <> ""
        /\ input_status input = None
        /\ input_priority input = form_priority f
        /\ input_description input <> Some ""
        /\ input_tags input <> Some []
        /\ (form_dueDate f = "" -> input_dueDate input = Null)
        /\ (forall now rnd prev,
              let t := (addTask now rnd input prev).1 in
              status t = pending /\ title t <> "" /\ completion_inv t)).
Proof.
  pose proof (form_validateForm_ok f) as Hvalid.
  unfold handleSubmit. destruct (validateForm trim f) as [valid f'] eqn:Ev.
  assert (Hf' : f' = (validateForm trim f).2) by (by rewrite Ev).
  cbn [fst] in Hvalid. subst valid. unfold validateForm in Hf'. cbn [snd] in Hf'.
  split.
  - intros Hblank. rewrite (bool_decide_eq_true_2 _ Hblank) in *.
    simpl. by rewrite Hf'.
  - intros Hok. rewrite (bool_decide_eq_false_2 _ Hok) in *. simpl.
    eexists. split; [by rewrite Hf'|]. subst f'. simpl.
    split; [done|]. split; [done|]. split; [done|]. split; [done|].
    split; [|split; [|split]].
    + case_bool_decide; [done|]. congruence.
    + case_bool_decide as Hlen; [|done].
      destruct (form_tags f); [simpl in Hlen; lia | done].
    + by intros ->.
    + intros now rnd prev. simpl. split; [done|]. split; [done|].
      unfold completion_inv. simpl. split; discriminate.
Qed.

Lemma List_filter_NoDup {A} (g : A -> bool) (l : list A) :
  NoDup l -> NoDup (List.filter g l).
Proof.
  induction 1 as [|x l Hx Hl IH]; simpl; [constructor|].
  destruct (g x); [|exact IH]. constructor; [|exact IH].
  intros Hin. apply Hx. apply list_elem_of_In in Hin.
  apply List.filter_In in Hin as [Hin _]. by apply list_elem_of_In.
Qed.

Lemma List_filter_not_elem (tag : string) (l : list string) :
  tag ∉ List.filter (fun t => negb (bool_decide (t = tag))) l.
Proof.
  intros Hin. apply list_elem_of_In, List.filter_In in Hin as [_ Hin].
  by rewrite bool_decide_eq_true_2 in Hin.
Qed.

Lemma List_filter_remove_last (tag : string) (l : list string) :
  tag ∉ l ->
  List.filter (fun t => negb (bool_decide (t = tag))) (l ++ [tag]) = l.
Proof.
  intros Hnot. rewrite List.filter_app. simpl.
  rewrite bool_decide_eq_true_2 by done. simpl. rewrite app_nil_r.
  apply List_filter_true_on. intros t Ht. apply negb_true_iff.
  apply bool_decide_eq_false. intros ->. done.
Qed.

(** X20.  The tags of the form never get a duplicate or an empty entry:
    [handleAddTag] appends the trimmed new tag only when it is non-empty
    and not yet present (and then clears the tag field), and otherwise
    leaves the form alone; [handleRemoveTag] removes the tag and keeps the
    others in order; removing a tag just added gives back the tags as they
    were. *)
Theorem form_tags_spec (f : Form) (tag : string) :
  NoDup (form_tags f) ->
  NoDup (form_tags (handleAddTag trim f))
  /\ ("" ∉ form_tags f -> "" ∉ form_tags (handleAddTag trim f))
  /\ (trim (form_newTag f) = "" \/ trim (form_newTag f) ∈ form_tags f ->
      handleAddTag trim f = f)
  /\ (trim (form_newTag f) <> "" -> trim (form_newTag f) ∉ form_tags f ->
      form_tags (handleAddTag trim f) = form_tags f ++ [trim (form_newTag f)]
      /\ form_newTag (handleAddTag trim f) = ""
      /\ form_tags (handleRemoveTag (trim (form_newTag f)) (handleAddTag trim f))
         = form_tags f)
  /\ NoDup (form_tags (handleRemoveTag tag f))
  /\ tag ∉ form_tags (handleRemoveTag tag f).
Proof.
  intros Hnodup.
  assert (Hrm1 : NoDup (form_tags (handleRemoveTag tag f)))
    by (simpl; by apply List_filter_NoDup).
  assert (Hrm2 : tag ∉ form_tags (handleRemoveTag tag f))
    by (simpl; apply List_filter_not_elem).
  assert (Hsame : trim (form_newTag f) = "" \/ trim (form_newTag f) ∈ form_tags f ->
                  handleAddTag trim f = f).
  { unfold handleAddTag. intros [He|Hin].
    - by rewrite (bool_decide_eq_true_2 _ He).
    - rewrite (bool_decide_eq_true_2 _ Hin). by rewrite andb_false_r. }
  assert (Hadd : trim (form_newTag f) <> "" -> trim (form_newTag f) ∉ form_tags f ->
                 handleAddTag trim f
                 = mkForm (form_title f) (form_description f) (form_dueDate f)
                          (form_priority f)
                          (form_tags f ++ [trim (form_newTag f)]) ""
                          (form_errors f)).
  { unfold handleAddTag. intros He Hin.
    by rewrite (bool_decide_eq_false_2 _ He), (bool_decide_eq_false_2 _ Hin). }
  destruct (decide (trim (form_newTag f) = "")) as [He|He];
    [|destruct (decide (trim (form_newTag f) ∈ form_tags f)) as [Hin|Hin]].
  - rewrite Hsame by (by left).
    split; [done|]. split; [done|]. split; [done|]. split; [done|]. by split.
  - rewrite Hsame by (by right).
    split; [done|]. split; [done|]. split; [done|]. split; [done|]. by split.
  - rewrite (Hadd He Hin). simpl.
    split; [|split; [|split; [|split; [|by split]]]].
    + apply NoDup_app. split; [done|]. split; [|apply NoDup_singleton].
      intros x Hx Hx'. apply list_elem_of_singleton in Hx'. by subst.
    + intros Hno Hin'. apply elem_of_app in Hin' as [?|Hin']; [done|].
      apply list_elem_of_singleton in Hin'. congruence.
    + intros [?|?]; done.
    + intros _ _. split; [done|]. split; [done|].
      by apply List_filter_remove_last.
Qed.

End Form.

Lemma handleSubmit_spec_witness :
  (TaskForm.handleSubmit trimBlank stamp_parse (sampleForm "  " "" [])).1 = None
  /\ (exists input,
        (TaskForm.handleSubmit trimBlank stamp_parse
           (sampleForm "Buy milk" "" ["home"])).1 = Some input
        /\ input_title input = "Buy milk"
        /\ input_description input = None
        /\ input_tags input = Some ["home"]).
Proof.
  split.
  - destruct (handleSubmit_spec trimBlank stamp_parse (sampleForm "  " "" []))
      as [Hblank _].
    by rewrite (Hblank eq_refl).
  - destruct (handleSubmit_spec trimBlank stamp_parse
                (sampleForm "Buy milk" "" ["home"])) as [_ Hok].
    destruct (Hok ltac:(discriminate)) as (input & Hrun & Htitle & _).
    exists input. rewrite Hrun. split; [done|]. split; [exact Htitle|].
    injection Hrun as <-. split; reflexivity.
Defined.

Lemma form_tags_spec_witness :
  TaskForm.form_tags (TaskForm.handleAddTag trimBlank
                        (sampleForm "t" "work" ["home"])) = ["home"; "work"]
  /\ TaskForm.handleAddTag trimBlank (sampleForm "t" "home" ["home"])
     = sampleForm "t" "home" ["home"]
  /\ NoDup (TaskForm.form_tags (TaskForm.handleAddTag trimBlank
                                  (sampleForm "t" "work" ["home"]))).
Proof.
  assert (Hnodup : NoDup ["home"]) by apply NoDup_singleton.
  destruct (form_tags_spec trimBlank (sampleForm "t" "work" ["home"]) "x" Hnodup)
    as (Hnd & _ & _ & Hadd & _).
  destruct (form_tags_spec trimBlank (sampleForm "t" "home" ["home"]) "x" Hnodup)
    as (_ & _ & Hsame & _).
  split; [|split; [|exact Hnd]].
  - apply Hadd; [discriminate|]. intros Hin.
    apply list_elem_of_singleton in Hin. discriminate.
  - apply Hsame. right. by left.
Defined.

(** ** The modal's own copy of the task (TaskDetailModal.tsx) *)

Section ModalTags.

Variable trim : string -> string.

(** X23.  In the modal, too, the tags of the task being edited never get a
    duplicate: [handleAddTag] appends the trimmed tag only when it is
    non-empty and not yet among the tags, creating the tag list when the
    task had none; [handleRemoveTag] removes the tag and never turns an
    absent tag list into a present one; neither touches another
    property of the task. *)
Theorem modal_tags_spec (newTag tag : string) (edited : Task) :
  NoDup (tags_of edited) ->
  (exists added,
     TaskDetailModal.handleAddTag trim newTag (Some edited) = Some added
     /\ NoDup (tags_of added)
     /\ (trim newTag = "" \/ trim newTag ∈ tags_of edited -> added = edited)
     /\ (trim newTag <> "" -> trim newTag ∉ tags_of edited ->
         tags added = Some (tags_of edited ++ [trim newTag]))
     /\ TaskDetailModal.setTags added (tags edited) = edited)
  /\ (exists removed,
        TaskDetailModal.handleRemoveTag tag (Some edited) = Some removed
        /\ NoDup (tags_of removed)
        /\ (tag ∉ tags_of removed)
        /\ (tags edited = None -> tags removed = None)
        /\ TaskDetailModal.setTags removed (tags edited) = edited).
Proof.
  intros Hnodup. split.
  - unfold TaskDetailModal.handleAddTag, TaskDetailModal.tagsInclude.
    assert (Hinc : match tags edited with
                   | Some l => bool_decide (trim newTag ∈ l)
                   | None => false
                   end = bool_decide (trim newTag ∈ tags_of edited)).
    { unfold tags_of. destruct (tags edited); [done|].
      symmetry. apply bool_decide_eq_false. apply not_elem_of_nil. }
    rewrite Hinc.
    destruct (decide (trim newTag = "")) as [He|He];
      [rewrite (bool_decide_eq_true_2 _ He)
      | rewrite (bool_decide_eq_false_2 _ He)]; simpl.
    + eexists. split; [reflexivity|]. split; [done|]. split; [done|].
      split; [done|]. by destruct edited.
    + destruct (decide (trim newTag ∈ tags_of edited)) as [Hin|Hin];
        [rewrite (bool_decide_eq_true_2 _ Hin)
        | rewrite (bool_decide_eq_false_2 _ Hin)]; simpl.
      * eexists. split; [reflexivity|]. split; [done|]. split; [done|].
        split; [done|]. by destruct edited.
      * eexists. split; [reflexivity|]. unfold tags_of at 1. simpl.
        split; [|split; [|split; [|by destruct edited]]].
        -- apply NoDup_app. split; [done|]. split; [|apply NoDup_singleton].
           intros x Hx Hx'. apply list_elem_of_singleton in Hx'. by subst.
        -- intros [?|?]; done.
        -- done.
  - unfold TaskDetailModal.handleRemoveTag. eexists. split; [reflexivity|].
    unfold tags_of in *. simpl. destruct (tags edited) as [l|] eqn:E.
    + split; [by apply List_filter_NoDup|].
      split; [apply List_filter_not_elem|]. split; [done|].
      destruct edited; simpl in *. by subst.
    + split; [constructor|]. split; [apply not_elem_of_nil|]. split; [done|].
      destruct edited; simpl in *. by subst.
Qed.

End ModalTags.

Section ModalStatus.

Variable toISOString : Z -> string.
Variable b : useLocalStorage.Browser.


End ModalStatus.


(** ** The due-date label of a task item *)

Lemma localDay_mono tz a b : a <= b -> localDay tz a <= localDay tz b.
Proof. intros H. unfold localDay, msPerDay. apply Z.div_le_mono; lia. Qed.

Lemma localDay_lt tz a b : localDay tz a < localDay tz b -> a < b.
Proof.
  intros H. destruct (Z_lt_le_dec a b) as [|Hle]; [done|].
  apply (localDay_mono tz) in Hle. lia.
Qed.

Section ItemLabel.

Import TaskItem.

Variable monthShort : Date -> string.

Lemma isToday_localDay tz now d :
  isToday tz now (Instant d) = true <-> localDay tz d = localDay tz now.
Proof. apply sameYMD_localDay. Qed.

Lemma isTomorrow_localDay tz now d :
  isTomorrow tz now (Instant d) = true <-> localDay tz d = localDay tz now + 1.
Proof.
  unfold isTomorrow, nextDay, newDate. by rewrite sameYMD_localDay, localDay_next.
Qed.

(** X25.  The label and the colour of a due date go by local calendar
    days.  A date on today's day is labelled "Today" and shown in orange,
    also when its instant has passed; a date on the next day is labelled
    "Tomorrow"; a date on an earlier day is labelled "Overdue: ..." and
    shown in red; a later date carries its plain date.  An absent or null
    due date has no label. *)
Theorem dueDate_label_and_style (tz now d : Z) :
  let due := Val (Instant d) in
  (localDay tz d = localDay tz now ->
   formatDueDate monthShort tz now due = Some "Today"
   /\ getDueDateStyles tz now due
      = "text-orange-600 dark:text-orange-400 font-semibold")
  /\ (localDay tz d = localDay tz now + 1 ->
      formatDueDate monthShort tz now due = Some "Tomorrow"
      /\ getDueDateStyles tz now due = "text-gray-600 dark:text-gray-400")
  /\ (localDay tz d < localDay tz now ->
      formatDueDate monthShort tz now due
      = Some ("Overdue: " +:+ formatDate monthShort tz now (Instant d))
      /\ getDueDateStyles tz now due
         = "text-red-600 dark:text-red-400 font-semibold")
  /\ (localDay tz now + 1 < localDay tz d ->
      formatDueDate monthShort tz now due
      = Some (formatDate monthShort tz now (Instant d))
      /\ getDueDateStyles tz now due = "text-gray-600 dark:text-gray-400")
  /\ formatDueDate monthShort tz now Null = None
  /\ formatDueDate monthShort tz now Undefined = None.
Proof.
  intros due. subst due.
  unfold formatDueDate, getDueDateStyles, isPast, date_ltb, newDate.
  destruct (isToday tz now (Instant d)) eqn:Etoday;
    destruct (isTomorrow tz now (Instant d)) eqn:Etomorrow.
  all: try (apply isToday_localDay in Etoday).
  all: try (apply isTomorrow_localDay in Etomorrow).
  all: try (apply not_true_iff_false in Etoday;
            rewrite isToday_localDay in Etoday).
  all: try (apply not_true_iff_false in Etomorrow;
            rewrite isTomorrow_localDay in Etomorrow).
  - lia.
  - rewrite andb_false_r.
    repeat split; try done; intros; lia.
  - assert (Hnp : bool_decide (d < now) = false).
    { apply bool_decide_eq_false. intros Hlt.
      apply Z.lt_le_incl, (localDay_mono tz) in Hlt. lia. }
    rewrite Hnp. repeat split; try done; intros; lia.
  - split; [intros; lia|]. split; [intros; lia|]. split; [|split; [|done]].
    + intros Hlt. apply (localDay_lt tz) in Hlt as Hlt'.
      by rewrite (bool_decide_eq_true_2 _ Hlt').
    + intros Hgt.
      assert (Hnp : bool_decide (d < now) = false).
      { apply bool_decide_eq_false. intros Hlt.
        apply Z.lt_le_incl, (localDay_mono tz) in Hlt. lia. }
      by rewrite Hnp.
Qed.

End ItemLabel.

(** At noon, a task due at 08:00 the same day: the item says "Today" while
    the hook's [getOverdueTasks] lists the task. *)
Example due_this_morning :
  let t := sampleTask "1" low pending (Val (Instant 28800000)) Undefined 0 0 in
  TaskItem.formatDueDate (fun _ => "Jan") 0 43200000 (dueDate t) = Some "Today"
  /\ getOverdueTasks 43200000 [t] = [t].
Proof.
  intros t. split; reflexivity.
Qed.

(** ** The further properties at concrete inputs *)

Lemma sortByPriority_list_sorted_witness :
  let a := sampleTask "a" urgent pending Undefined Undefined 1 1 in
  let b := sampleTask "b" low pending Undefined Undefined 2 2 in
  utils.sortByPriority_list [a; b] = [a; b].
Proof.
  intros a b.
  apply (proj1 (sortByPriority_list_sorted [a; b])).
  repeat constructor; unfold rank_ge; simpl; lia.
Defined.

Lemma due_day_classes_witness :
  let t := sampleTask "1" low pending (Val (Instant 28800000)) Undefined 0 0 in
  utils.isTaskDueToday 0 43200000 t = true
  /\ utils.isTaskDueTomorrow 0 43200000 t = false
  /\ utils.isTaskOverdue 0 43200000 t = false.
Proof.
  intros t.
  destruct (due_day_classes 0 43200000 t) as (_ & _ & _ & Htoday & _).
  split; [reflexivity|]. apply Htoday. reflexivity.
Defined.

Lemma handleStorageChange_ignores_witness :
  let w := useLocalStorage.mkWorld
             [sampleTask "1" low pending Undefined Undefined 1 1] ∅ [] in
  useLocalStorage.handleStorageChange stamp_parse "nimbustodo_tasks" "theme"
    (Some (useLocalStorage.Unparseable "dark")) w
  = (utils.Normal tt, w).
Proof.
  intros w.
  destruct (handleStorageChange_ignores stamp_parse "nimbustodo_tasks" "theme"
              (Some (useLocalStorage.Unparseable "dark")) w) as (Hother & _).
  apply Hother. discriminate.
Defined.

Lemma modal_save_spec_witness :
  let t := mkTask "a" " " None Undefined low pending
                  (Instant 1) (Instant 1) Undefined None None in
  let u := mkTask "a" "Buy milk" (Some "  ") Undefined low pending
                  (Instant 1) (Instant 1) Undefined None None in
  TaskDetailModal.handleSave trimBlank 9 (Some t) = None
  /\ exists saved,
       TaskDetailModal.handleSave trimBlank 9 (Some u) = Some saved
       /\ updatedAt saved = Instant 9
       /\ Home.modalSave saved [t] = [saved].
Proof.
  intros t u.
  destruct (modal_save_spec trimBlank 9 t []) as (_ & Hblank & _).
  destruct (modal_save_spec trimBlank 9 u [t]) as (_ & _ & Hok).
  split; [apply Hblank; reflexivity|].
  destruct (Hok ltac:(discriminate)) as (saved & Hrun & _ & Hupd & _).
  exists saved. split; [exact Hrun|]. split; [exact Hupd|].
  injection Hrun as <-. reflexivity.
Defined.

Lemma modal_tags_spec_witness :
  let t := mkTask "a" "Buy milk" None Undefined low pending
                  (Instant 1) (Instant 1) Undefined None None in
  exists added,
    TaskDetailModal.handleAddTag trimBlank "home" (Some t) = Some added
    /\ tags added = Some ["home"]
    /\ NoDup (tags_of added).
Proof.
  intros t.
  destruct (modal_tags_spec trimBlank "home" "x" t ltac:(constructor))
    as ((added & Hrun & Hnd & _ & Hadd & _) & _).
  exists added. split; [exact Hrun|]. split; [|exact Hnd].
  apply Hadd; [discriminate | apply not_elem_of_nil].
Defined.

Lemma render_group_status_witness :
  let a := sampleTask "a" low archived Undefined Null 1 1 in
  exists r,
    TaskListDisplay.render [a] (just archived) TaskListDisplay.sort_none
      TaskListDisplay.group_status "No tasks to display" = utils.Normal r
    /\ TaskListDisplay.shown r = []
    /\ r = TaskListDisplay.Groups [].
Proof.
  intros a.
  destruct (render_group_status [a] (just archived) TaskListDisplay.sort_none
              "No tasks to display")
    as (_ & r & Hr & _ & _ & Harch).
  destruct (Harch eq_refl) as [Hshown Hgroups].
  exists r. split; [exact Hr|]. split; [exact Hshown|].
  apply Hgroups. discriminate.
Defined.

Lemma render_group_priority_witness :
  let a := sampleTask "a" low pending Undefined Undefined 1 1 in
  let b := sampleTask "b" urgent pending Undefined Undefined 2 2 in
  exists r,
    TaskListDisplay.render [a; b] all TaskListDisplay.sort_priority
      TaskListDisplay.group_priority "No tasks to display" = utils.Normal r
    /\ TaskListDisplay.shown r = [b; a].
Proof.
  intros a b.
  destruct (render_group_priority [a; b] all TaskListDisplay.sort_priority
              "No tasks to display")
    as ((r & Hr & _ & _ & Hsorted) & _).
  exists r. split; [exact Hr|]. rewrite (Hsorted eq_refl). reflexivity.
Defined.

Lemma dueDate_label_and_style_witness :
  TaskItem.formatDueDate (fun _ => "Jan") 0 43200000 (Val (Instant 28800000))
  = Some "Today"
  /\ TaskItem.getDueDateStyles 0 43200000 (Val (Instant (-1)))
     = "text-red-600 dark:text-red-400 font-semibold".
Proof.
  destruct (dueDate_label_and_style (fun _ => "Jan") 0 43200000 28800000)
    as (Htoday & _).
  destruct (dueDate_label_and_style (fun _ => "Jan") 0 43200000 (-1))
    as (_ & _ & Hpast & _).
  split; [apply Htoday; reflexivity | apply Hpast; reflexivity].
Defined.
